(** * Valyro: the dashboard read path and the daily scheduler, embedded in Rocq

    The development follows the repository file by file:
    - [Js]        the fragment of JavaScript the front end relies on
                  (values, numbers as IEEE doubles, exceptions, the stable
                  [Array.prototype.sort], [String.prototype.trim]);
    - [Valyro]    [frontend/src/app/api/valyro.ts]: [apiJson], [listKeywords],
                  the request bodies;
    - [App]       [frontend/src/app/App.tsx]: [loadPriceChangesForCards],
                  [loadDashboard];
    - [Detail]    [components/ProductDetailPanel.tsx];
    - [Compare]   [sections/CompareSection.tsx]: [onCompare];
    - [SearchBar] [components/SearchBar.tsx]: [toNumOrUndef], [handleSearch];
    - [Schtasks]  [scripts/install_daily_task.ps1] and
                  [scripts/run_daily_scrape.ps1] over a model of the Windows
                  task scheduler.
    [Sample] holds a concrete host and the data of the worked examples, the
    [...Spec] modules the vocabulary of the statements. The properties come
    afterwards, one [...Props] module per source file. *)

From Stdlib Require Import PrimFloat SpecFloat FloatOps FloatAxioms Uint63 ZArith Ascii.
From stdpp Require Import gmap strings list sorting pretty.

Set Warnings "-register-all,-clear-no-such-hyp".
Local Open Scope Z_scope.

(** ** The JavaScript fragment *)

Module Js.

(** A JavaScript value as [JSON.parse] produces it, plus [undefined].
    An object keeps its properties in insertion order, each name once. *)
Inductive jsval : Type :=
| JUndef
| JNull
| JBool (b : bool)
| JNum (x : float)
| JStr (s : string)
| JArr (items : list jsval)
| JObj (props : list (string * jsval)).

(** Exceptions: [new Error(arg)] keeps the constructor's argument; the
    others are the built-in errors the modelled code can meet. *)
Inductive exn : Type :=
| Error (arg : jsval)
| TypeError
| SyntaxError
| NetworkError.

(** A computation that returns or throws; an awaited promise that resolves
    or rejects. *)
Inductive result (A : Type) : Type :=
| Ok (a : A)
| Throw (e : exn).
Arguments Ok {A} a.
Arguments Throw {A} e.

Definition bind {A B} (r : result A) (k : A → result B) : result B :=
  match r with
  | Ok a => k a
  | Throw e => Throw e
  end.

(** [try { body } catch { handler }] *)
Definition try_catch {A} (body : result A) (handler : exn → result A) : result A :=
  match body with
  | Ok a => Ok a
  | Throw e => handler e
  end.

#[global] Instance result_ret : MRet result := λ A a, Ok a.
#[global] Instance result_fmap : FMap result := λ A B f r,
  match r with
  | Ok a => Ok (f a)
  | Throw e => Throw e
  end.
#[global] Instance result_bind : MBind result := λ A B k r, bind r k.

(** What the host provides and the repository does not define: the JSON
    parser, the numeric value of a string, the primitive value of an object,
    the date parser ([new Date(s).getTime()], [None] for NaN; time values
    are whole milliseconds) and the local calendar fields of a time value
    ([getFullYear], [getMonth], [getDate]). *)
Class Runtime : Type := {
  JSON_parse : string → option jsval;
  StringToNumber : string → float;
  ObjectToNumber : jsval → float;
  Date_getTime : string → option Z;
  Date_local : Z → Z * Z * Z
}.

(** *** Property access *)

Fixpoint assoc (k : string) (props : list (string * jsval)) : option jsval :=
  match props with
  | [] => None
  | (k', v) :: rest => if String.eqb k k' then Some v else assoc k rest
  end.

(** [v.k] on a value that is neither [null] nor [undefined]; a primitive or
    an array has none of the property names used by the front end. *)
Definition get (v : jsval) (k : string) : jsval :=
  match v with
  | JObj props => default JUndef (assoc k props)
  | _ => JUndef
  end.

Definition nullish (v : jsval) : bool :=
  match v with
  | JUndef | JNull => true
  | _ => false
  end.

(** [v?.k] *)
Definition get_opt (v : jsval) (k : string) : jsval :=
  if nullish v then JUndef else get v k.

(** [a ?? b] *)
Definition coalesce (a b : jsval) : jsval :=
  if nullish a then b else a.

Definition Array_isArray (v : jsval) : bool :=
  match v with
  | JArr _ => true
  | _ => false
  end.

(** *** Numbers *)

Definition Number_isFinite (x : float) : bool := PrimFloat.is_finite x.

(** [Number(v)], the ToNumber conversion. *)
Definition Number `{Runtime} (v : jsval) : float :=
  match v with
  | JUndef => PrimFloat.nan
  | JNull => PrimFloat.zero
  | JBool true => PrimFloat.one
  | JBool false => PrimFloat.zero
  | JNum x => x
  | JStr s => StringToNumber s
  | JArr _ | JObj _ => ObjectToNumber v
  end.

(** ToBoolean. *)
Definition truthy (v : jsval) : bool :=
  match v with
  | JUndef | JNull => false
  | JBool b => b
  | JNum x => negb (PrimFloat.is_nan x || PrimFloat.is_zero x)
  | JStr s => negb (String.eqb s "")
  | JArr _ | JObj _ => true
  end.

Definition float_of_Z (z : Z) : float :=
  match z with
  | Z0 => PrimFloat.zero
  | Zpos _ => PrimFloat.of_uint63 (Uint63.of_Z z)
  | Zneg p => PrimFloat.opp (PrimFloat.of_uint63 (Uint63.of_Z (Zpos p)))
  end.

(** [Math.round]: the nearest integer, ties towards +infinity; a value with
    a non-negative exponent is already an integer, and a negative value
    that rounds to zero keeps its sign. *)
Definition Math_round (x : float) : float :=
  match Prim2SF x with
  | S754_finite s m e =>
      if 0 <=? e then x
      else
        let num := if s then Zneg m else Zpos m in
        let den := 2 ^ (- e) in
        let r := (2 * num + den) `div` (2 * den) in
        if r =? 0 then (if s then PrimFloat.neg_zero else PrimFloat.zero)
        else float_of_Z r
  | _ => x
  end.

(** *** Strings *)

(** A text is held as the bytes of its UTF-8 encoding. The white space
    and line terminators of the language are the code points U+0009 to
    U+000D, U+0020, U+00A0, U+1680, U+2000 to U+200A, U+2028, U+2029,
    U+202F, U+205F, U+3000 and U+FEFF; encoded, they take one, two or
    three bytes. A table of white space gives the three tests. *)
Record WhiteSpace : Type := {
  space1 : Ascii.ascii → bool;
  space2 : Ascii.ascii → Ascii.ascii → bool;
  space3 : Ascii.ascii → Ascii.ascii → Ascii.ascii → bool
}.

Definition byte (c : Ascii.ascii) : nat := Ascii.nat_of_ascii c.

(** U+0009 to U+000D and U+0020. *)
Definition ascii_space (a : Ascii.ascii) : bool :=
  ((9 <=? byte a)%nat && (byte a <=? 13)%nat) || (byte a =? 32)%nat.

(** U+1680 is E1 9A 80; U+2000 to U+200A, U+2028, U+2029 and U+202F are
    E2 80 followed by 80 to 8A, A8, A9 and AF; U+205F is E2 81 9F; U+3000
    is E3 80 80. *)
Definition separator3 (a b c : Ascii.ascii) : bool :=
  ((byte a =? 225)%nat && (byte b =? 154)%nat && (byte c =? 128)%nat)
  || ((byte a =? 226)%nat && (byte b =? 128)%nat
      && (((128 <=? byte c)%nat && (byte c <=? 138)%nat)
          || (byte c =? 168)%nat || (byte c =? 169)%nat || (byte c =? 175)%nat))
  || ((byte a =? 226)%nat && (byte b =? 129)%nat && (byte c =? 159)%nat)
  || ((byte a =? 227)%nat && (byte b =? 128)%nat && (byte c =? 128)%nat).

(** The white space [trim] removes: U+00A0 is C2 A0 and U+FEFF is
    EF BB BF. *)
Definition StrWhiteSpace : WhiteSpace := {|
  space1 := ascii_space;
  space2 := λ a b, (byte a =? 194)%nat && (byte b =? 160)%nat;
  space3 := λ a b c,
    separator3 a b c
    || ((byte a =? 239)%nat && (byte b =? 187)%nat && (byte c =? 191)%nat)
|}.

Section white_space.
Variable W : WhiteSpace.

(** What follows the white-space character a text starts with, if it
    starts with one. *)
Definition after_space (s : string) : option string :=
  match s with
  | String a r1 =>
      if space1 W a then Some r1
      else
        match r1 with
        | String b r2 =>
            if space2 W a b then Some r2
            else
              match r2 with
              | String c r3 => if space3 W a b c then Some r3 else None
              | EmptyString => None
              end
        | EmptyString => None
        end
  | EmptyString => None
  end.

(** The text without the white space it starts with. *)
Fixpoint skip_spaces (s : string) : string :=
  match s with
  | String a r1 =>
      if space1 W a then skip_spaces r1
      else
        match r1 with
        | String b r2 =>
            if space2 W a b then skip_spaces r2
            else
              match r2 with
              | String c r3 => if space3 W a b c then skip_spaces r3 else s
              | EmptyString => s
              end
        | EmptyString => s
        end
  | EmptyString => EmptyString
  end.

(** Whether a text holds white space only; the empty text does. *)
Fixpoint only_spaces (s : string) : bool :=
  match s with
  | String a r1 =>
      if space1 W a then only_spaces r1
      else
        match r1 with
        | String b r2 =>
            if space2 W a b then only_spaces r2
            else
              match r2 with
              | String c r3 => space3 W a b c && only_spaces r3
              | EmptyString => false
              end
        | EmptyString => false
        end
  | EmptyString => true
  end.

(** The text without the white space it ends with: it is cut where what
    is left holds white space only. *)
Fixpoint drop_spaces_end (s : string) : string :=
  match s with
  | String a rest =>
      if only_spaces s then EmptyString else String a (drop_spaces_end rest)
  | EmptyString => EmptyString
  end.

End white_space.

Definition trimStart (s : string) : string := skip_spaces StrWhiteSpace s.

Definition trimEnd (s : string) : string := drop_spaces_end StrWhiteSpace s.

Definition trim (s : string) : string := trimEnd (trimStart s).

(** [String(n)] for an integer. *)
Definition String_of_Z (z : Z) : string := pretty z.

(** [s.padStart(2, '0')] *)
Definition padStart2 (s : string) : string :=
  match String.length s with
  | O => "00"
  | S O => "0" +:+ s
  | _ => s
  end.

(** A template literal: its pieces in order, a number being printed where
    it stands. *)
Inductive piece : Type :=
| Lit (s : string)
| Num (x : float).

(** *** Arrays *)

(** [a.slice(0, n)] *)
Definition slice0 {A} (n : nat) (a : list A) : list A := take n a.

(** [a[i]] followed by a property access: reading past the end yields
    [undefined], whose property access throws. *)
Definition at_index {A} (a : list A) (i : nat) : result A :=
  match a !! i with
  | Some x => Ok x
  | None => Throw TypeError
  end.

(** The comparator's answer is used by its sign; NaN counts as zero. *)
Definition is_positive (d : option Z) : bool :=
  match d with
  | Some d => 0 <? d
  | None => false
  end.

(** [Array.prototype.sort(cmp)] is stable: [x], which stood before the
    elements of [l], moves right only past those it compares greater than.
    For a comparator that orders the elements consistently every stable
    sort returns this list. *)
Fixpoint sort_insert {A} (cmp : A → A → option Z) (x : A) (l : list A) : list A :=
  match l with
  | [] => [x]
  | y :: l' => if is_positive (cmp x y) then y :: sort_insert cmp x l' else x :: l
  end.

Definition Array_sort {A} (cmp : A → A → option Z) (a : list A) : list A :=
  foldr (sort_insert cmp) [] a.

(** [new Date(a).getTime() - new Date(b).getTime()] *)
Definition time_diff `{Runtime} (a b : string) : option Z :=
  match Date_getTime a, Date_getTime b with
  | Some ta, Some tb => Some (ta - tb)
  | _, _ => None
  end.

End Js.

Import Js.

(** ** frontend/src/app/api/valyro.ts *)

Module Valyro.

(** What [fetch] resolved to: the status line and the body as read by
    [res.text()], [None] when reading it failed. *)
Record Response : Type := {
  status : Z;
  body : option string
}.

(** [res.ok] *)
Definition ok (res : Response) : bool :=
  (200 <=? status res) && (status res <=? 299).

(** The template [HTTP ${res.status}] *)
Definition http_status (res : Response) : string :=
  "HTTP " +:+ String_of_Z (status res).

(** [a || b] on strings *)
Definition or_else (a b : string) : string :=
  if String.eqb a "" then b else a.

Definition parse `{Runtime} (text : string) : result jsval :=
  match JSON_parse text with
  | Some j => Ok j
  | None => Throw SyntaxError
  end.

(** [apiJson]: [fetched] is the awaited [fetch(url, init)]. The [throw]
    of the extracted message stands inside the [try] block, as in the
    source. *)
Definition apiJson `{Runtime} (fetched : result Response) : result jsval :=
  res ← fetched;
  let text := default "" (body res) in
  if negb (ok res) then
    try_catch
      (j ← parse text;
       let msg :=
         coalesce
           (coalesce
              (coalesce (get_opt (get_opt j "error") "message") (get_opt j "message"))
              (JStr text))
           (JStr (http_status res)) in
       Throw (Error msg))
      (λ _, Throw (Error (JStr (or_else text (http_status res)))))
  else if String.eqb text "" then Ok (JObj [])
  else parse text.

(** The body of [listKeywords] after [await apiJson('/keywords')]. *)
Definition keywords_of (r : jsval) : list jsval :=
  match r with
  | JArr items => items
  | _ =>
      if truthy r && Array_isArray (get r "keywords") then
        match get r "keywords" with
        | JArr items => items
        | _ => []
        end
      else []
  end.

Definition listKeywords `{Runtime} (fetched : result Response) : result (list jsval) :=
  r ← apiJson fetched;
  Ok (keywords_of r).

(** *** The typed responses (the [as T] casts of the source) *)

(** A field the source converts or tests before use is kept as the raw
    value; [None] stands for a property that is [null] or missing. *)
Record SeriesPoint : Type := {
  pt_scraped_at : string;
  pt_media : jsval;
  pt_mediana : jsval
}.

Record KeywordSeriesResponse : Type := {
  ser_keyword : string;
  ser_series : option (list SeriesPoint)
}.

Record Stats : Type := {
  st_n : jsval;
  st_mediana : jsval;
  st_q1 : jsval;
  st_q2 : jsval;
  st_q3 : jsval
}.

Record Band : Type := {
  band_from : jsval;
  band_to : jsval
}.

Record PriceRanges : Type := {
  pr_normal : option Band
}.

Record KeywordStatsResponse : Type := {
  ks_keyword : string;
  ks_scraped_at : string;
  ks_stats : option Stats;
  ks_price_ranges : option PriceRanges
}.

Inductive FilterMode : Type := soft | strict | off.

Record ScrapeOptions : Type := {
  min_price : option float;
  max_price : option float;
  filter_mode : option FilterMode;
  exclude_bad_text : option bool
}.

Definition FilterMode_name (m : FilterMode) : string :=
  match m with
  | soft => "soft"
  | strict => "strict"
  | off => "off"
  end.

(** [JSON.stringify] of a number: a NaN or an infinity is written [null]. *)
Definition json_number (x : float) : jsval :=
  if Number_isFinite x then JNum x else JNull.

Definition json_field {A} (k : string) (f : A → jsval) (v : option A) : list (string * jsval) :=
  match v with
  | Some a => [(k, f a)]
  | None => []
  end.

(** The document [JSON.stringify(opts ?? {})] writes for [scrapeKeyword]:
    a property whose value is [undefined] is left out. *)
Definition scrape_body (opts : option ScrapeOptions) : list (string * jsval) :=
  match opts with
  | None => []
  | Some o =>
      json_field "min_price" json_number (min_price o)
      ++ json_field "max_price" json_number (max_price o)
      ++ json_field "filter_mode" (λ m, JStr (FilterMode_name m)) (filter_mode o)
      ++ json_field "exclude_bad_text" JBool (exclude_bad_text o)
  end.

(** The requests the dashboard sends, by endpoint. *)
Inductive request : Type :=
| GET_keywords
| GET_stats (kw : jsval)
| GET_series (kw : string)
| POST_scrape (kw : string) (body : list (string * jsval)).

(** The server seen from the client: what each awaited call settles to. *)
Record Backend : Type := {
  keywords_response : result Response;
  getKeywordStats : jsval → result KeywordStatsResponse;
  getKeywordSeries : string → result KeywordSeriesResponse
}.

End Valyro.

Import Valyro.

(** ** frontend/src/app/App.tsx *)

Module App.

Record ComparisonRow : Type := {
  keyword : string;
  lastAnalysis : string;
  median : jsval;
  q1 : jsval;
  q2 : jsval;
  q3 : jsval;
  normalRange : list piece
}.

(** The component state the two loaders write. *)
Record State : Type := {
  loading : bool;
  error : option exn;
  tableRows : list ComparisonRow;
  priceChangeByKw : gmap string float
}.

Definition setLoading (b : bool) (st : State) : State :=
  {| loading := b; error := error st; tableRows := tableRows st;
     priceChangeByKw := priceChangeByKw st |}.

Definition setError (e : option exn) (st : State) : State :=
  {| loading := loading st; error := e; tableRows := tableRows st;
     priceChangeByKw := priceChangeByKw st |}.

Definition setTableRows (rows : list ComparisonRow) (st : State) : State :=
  {| loading := loading st; error := error st; tableRows := rows;
     priceChangeByKw := priceChangeByKw st |}.

Definition setPriceChangeByKw (f : gmap string float → gmap string float) (st : State) : State :=
  {| loading := loading st; error := error st; tableRows := tableRows st;
     priceChangeByKw := f (priceChangeByKw st) |}.

Section with_runtime.
Context `{Runtime}.

Definition formatDate (scrapedAt : string) : string :=
  match Date_getTime scrapedAt with
  | Some t =>
      let '(yy, mm, dd) := Date_local t in
      padStart2 (String_of_Z dd) +:+ "/" +:+ padStart2 (String_of_Z (mm + 1))
        +:+ "/" +:+ String_of_Z yy
  | None => scrapedAt
  end.

(** The comparator of the two [sort] calls on a series. *)
Definition by_scraped_at (a b : SeriesPoint) : option Z :=
  time_diff (pt_scraped_at a) (pt_scraped_at b).

(** The two ways the callback of [loadPriceChangesForCards] returns: the
    literal [0] of its guards, or the quotient of the last two medians. *)
Inductive signal : Type :=
| NoSignal
| Change (last prev : float).

Definition pct (s : signal) : float :=
  match s with
  | NoSignal => PrimFloat.zero
  | Change last prev =>
      PrimFloat.mul (PrimFloat.div (PrimFloat.sub last prev) prev) 100%float
  end.

Definition price_signal (ser : KeywordSeriesResponse) : result signal :=
  let sorted := Array_sort by_scraped_at (default [] (ser_series ser)) in
  if (length sorted <? 2)%nat then Ok NoSignal
  else
    p ← at_index sorted (length sorted - 2);
    q ← at_index sorted (length sorted - 1);
    let prev := Number (pt_mediana p) in
    let last := Number (pt_mediana q) in
    if negb (Number_isFinite prev) || PrimFloat.leb prev PrimFloat.zero
       || negb (Number_isFinite last)
    then Ok NoSignal
    else Ok (Change last prev).

(** The callback mapped over the keywords. *)
Definition price_change (B : Backend) (kw : string) : result (string * float) :=
  ser ← getKeywordSeries B kw;
  s ← price_signal ser;
  Ok (kw, pct s).

(** The loop over the settled results: a rejected one leaves no entry. *)
Definition patch_of (results : list (result (string * float))) : gmap string float :=
  foldl (λ patch r,
           match r with
           | Ok (kw, v) => <[kw := v]> patch
           | Throw _ => patch
           end) ∅ results.

Definition loadPriceChangesForCards (B : Backend) (keywords : list string) (st : State)
  : list request * State :=
  let results := price_change B <$> keywords in
  (GET_series <$> keywords,
   setPriceChangeByKw (λ prev, patch_of results ∪ prev) st).

(** Reading a property of a value that may be [null] or [undefined]. *)
Definition member {A} (v : option A) : result A :=
  match v with
  | Some a => Ok a
  | None => Throw TypeError
  end.

(** The row built from one stats response in [loadDashboard]. *)
Definition row_of_stats (s : KeywordStatsResponse) : result ComparisonRow :=
  st ← member (ks_stats s);
  pr ← member (ks_price_ranges s);
  nb ← member (pr_normal pr);
  Ok {| keyword := ks_keyword s;
        lastAnalysis := formatDate (ks_scraped_at s);
        median := st_mediana st;
        q1 := st_q1 st;
        q2 := st_q2 st;
        q3 := st_q3 st;
        normalRange :=
          [Num (Math_round (Number (band_from nb))); Lit "€ - ";
           Num (Math_round (Number (band_to nb))); Lit "€"] |}.

Definition failed (e : exn) (st : State) : State :=
  setLoading false (setError (Some e) st).

(** [loadDashboard]: the requests it sends, in order, and the state it
    leaves. [Promise.all] starts every request before any settles and
    rejects with a rejection of one of them, here the first in list
    order. *)
Definition loadDashboard (B : Backend) (st : State) : list request * State :=
  let st := setError None (setLoading true st) in
  match listKeywords (keywords_response B) with
  | Throw e => ([GET_keywords], failed e st)
  | Ok kws =>
      if (length kws =? 0)%nat then
        ([GET_keywords],
         setLoading false (setPriceChangeByKw (λ _, ∅) (setTableRows [] st)))
      else
        let asked := slice0 25 kws in
        let sent := GET_keywords :: (GET_stats <$> asked) in
        match mapM (getKeywordStats B) asked ≫= mapM row_of_stats with
        | Throw e => (sent, failed e st)
        | Ok mapped =>
            let st := setTableRows mapped st in
            let top4 := keyword <$> slice0 4 mapped in
            let '(more, st) := loadPriceChangesForCards B top4 st in
            (sent ++ more, setLoading false st)
        end
  end.

End with_runtime.

End App.

(** ** frontend/src/app/components/ProductComparisonTable.tsx *)

Module ProductComparisonTable.
Import App.

(** [v.toFixed(2)]: only a number has the method. *)
Definition toFixed2 (v : jsval) : result float :=
  match v with
  | JNum x => Ok x
  | _ => Throw TypeError
  end.

(** The cells of one table row: keyword, date, median, the quartiles (each
    printed with two decimals) and the normal range. *)
Definition render_row (product : ComparisonRow)
  : result (string * string * float * (float * float * float) * list piece) :=
  m ← toFixed2 (median product);
  a ← toFixed2 (q1 product);
  b ← toFixed2 (q2 product);
  c ← toFixed2 (q3 product);
  Ok (keyword product, lastAnalysis product, m, (a, b, c), normalRange product).

End ProductComparisonTable.

(** ** frontend/src/app/components/ProductDetailPanel.tsx *)

Module Detail.

Record ChartPoint : Type := {
  date : string;
  mediana : jsval;
  media : jsval
}.

Section with_runtime.
Context `{Runtime}.

Definition formatDate (scrapedAt : string) : string := App.formatDate scrapedAt.

Definition seriesChartData (series : option KeywordSeriesResponse) : list ChartPoint :=
  let pts := default [] (series ≫= ser_series) in
  (λ p, {| date := formatDate (pt_scraped_at p);
           mediana := pt_mediana p;
           media := pt_media p |})
    <$> Array_sort App.by_scraped_at pts.

(** [stats?.stats?.q1] and [stats?.stats?.q3] *)
Definition quartile (f : Stats → jsval) (stats : option KeywordStatsResponse) : jsval :=
  default JUndef (f <$> (stats ≫= ks_stats)).

(** The cell under the heading of the normal range. *)
Definition normal_range_cell (stats : option KeywordStatsResponse) : list piece :=
  let q1 := quartile st_q1 stats in
  let q3 := quartile st_q3 stats in
  if negb (nullish q1) && negb (nullish q3) then
    [Num (Math_round (Number q1)); Lit "€ – "; Num (Math_round (Number q3)); Lit "€"]
  else [Lit "—"].

End with_runtime.

End Detail.

(** ** frontend/src/app/sections/CompareSection.tsx *)

Module Compare.

(** A chart row: a plain object filled by assignment. *)
Abbreviation row := (gmap string jsval).

(** [byTs], a [Map] from [scraped_at] to row; its entries stay in
    insertion order. *)
Abbreviation table := (list (string * gmap string jsval)).

Fixpoint Map_has (ts : string) (m : table) : bool :=
  match m with
  | [] => false
  | (k, _) :: rest => String.eqb ts k || Map_has ts rest
  end.

Fixpoint Map_get (ts : string) (m : table) : option row :=
  match m with
  | [] => None
  | (k, r) :: rest => if String.eqb ts k then Some r else Map_get ts rest
  end.

(** [m.set(ts, r)]: a new key goes last, a known key keeps its place. *)
Fixpoint Map_set (ts : string) (r : row) (m : table) : table :=
  match m with
  | [] => [(ts, r)]
  | (k, r') :: rest =>
      if String.eqb ts k then (k, r) :: rest else (k, r') :: Map_set ts r rest
  end.

(** [m.get(ts)[kw] = v]: the stored object is updated in place. *)
Fixpoint Map_assign (ts kw : string) (v : jsval) (m : table) : table :=
  match m with
  | [] => []
  | (k, r) :: rest =>
      if String.eqb ts k then (k, <[kw := v]> r) :: rest
      else (k, r) :: Map_assign ts kw v rest
  end.

Section with_runtime.
Context `{Runtime}.

(** The [date] label of a new row; the fields of an invalid date print as
    NaN. *)
Definition date_label (ts : string) : string :=
  match Date_getTime ts with
  | Some t =>
      let '(yy, mm, dd) := Date_local t in
      padStart2 (String_of_Z dd) +:+ "/" +:+ padStart2 (String_of_Z (mm + 1))
        +:+ "/" +:+ String_of_Z yy
  | None => "NaN/NaN/NaN"
  end.

(** The body of the inner loop. *)
Definition add_point (kw : string) (byTs : table) (p : SeriesPoint) : table :=
  let ts := pt_scraped_at p in
  let byTs :=
    if Map_has ts byTs then byTs
    else Map_set ts {[ "date" := JStr (date_label ts) ]} byTs in
  Map_assign ts kw (pt_mediana p) byTs.

(** The body of the outer loop. *)
Definition add_series (byTs : table) (s : KeywordSeriesResponse) : table :=
  foldl (add_point (ser_keyword s)) byTs (default [] (ser_series s)).

Definition collect (seriesList : list KeywordSeriesResponse) : table :=
  foldl add_series [] seriesList.

Definition by_key (a b : string * row) : option Z := time_diff a.1 b.1.

(** The entries after the sort, before the keys are dropped. *)
Definition merged_entries (seriesList : list KeywordSeriesResponse) : table :=
  Array_sort by_key (collect seriesList).

(** [merged], the value handed to [setSeriesData]. *)
Definition merged (seriesList : list KeywordSeriesResponse) : list row :=
  snd <$> merged_entries seriesList.

(** [seriesList]: one series request for each requested keyword;
    [Promise.all] rejects when one of them does. *)
Definition seriesList (B : Backend) (kws : list string)
  : result (list KeywordSeriesResponse) :=
  mapM (getKeywordSeries B) kws.


End with_runtime.

End Compare.

(** ** frontend/src/app/components/SearchBar.tsx *)

Module SearchBar.

(** The fields of the form that [handleSearch] reads. *)
Record Form : Type := {
  searchTerm : string;
  minPrice : string;
  maxPrice : string;
  filterMode : FilterMode;
  excludeBadText : bool
}.

Section with_runtime.
Context `{Runtime}.

Definition toNumOrUndef (v : string) : option float :=
  let s := trim v in
  if String.eqb s "" then None
  else
    let n := StringToNumber s in
    if Number_isFinite n then Some n else None.

(** The call [props.onAnalyze(kw, opts)] of [handleSearch], [None] when the
    handler returns before it. *)
Definition handleSearch (f : Form) : option (string * ScrapeOptions) :=
  let kw := trim (searchTerm f) in
  if String.eqb kw "" then None
  else
    Some (kw, {| min_price := toNumOrUndef (minPrice f);
                 max_price := toNumOrUndef (maxPrice f);
                 filter_mode := Some (filterMode f);
                 exclude_bad_text := Some (excludeBadText f) |}).

(** [onAnalyze] in [App] passes both arguments on to [scrapeKeyword]: the
    request a submitted form puts on the wire. *)
Definition submitted (f : Form) : option request :=
  '(kw, opts) ← handleSearch f;
  Some (POST_scrape kw (scrape_body (Some opts))).

End with_runtime.

End SearchBar.

(** ** scripts/install_daily_task.ps1 and scripts/run_daily_scrape.ps1 *)

Module Schtasks.

Inductive schedule : Type :=
| DAILY (st : string)
| ONLOGON.

(** The program a task runs: the runner script with its two arguments. *)
Record action : Type := {
  runner : string;
  mode : string;
  root : string
}.

Record task : Type := {
  sc : schedule;
  tr : action;
  rl : string
}.

(** The machine the scripts run on: the file system ([Test-Path],
    [Resolve-Path "."]), [python] on the PATH, and whether the scheduler
    accepts a task (a malformed start time, a missing right or an
    over-long command line make [schtasks /Create] fail). *)
Record Host : Type := {
  Test_Path : string → bool;
  here : string;
  python_on_path : option string;
  accepts : string → task → bool
}.

Definition quote : string := String "034"%char "".

Definition ends_with_separator (a : string) : bool :=
  match String.rev a with
  | String c _ => Ascii.eqb c "\"%char
  | EmptyString => false
  end.

Definition Join_Path (a b : string) : string :=
  if ends_with_separator a then a +:+ b else a +:+ "\" +:+ b.

(** The white space of [Char.IsWhiteSpace]: the separators, the controls
    U+0009 to U+000D, U+0085 (C2 85) and U+00A0 (C2 A0). *)
Definition CharWhiteSpace : WhiteSpace := {|
  space1 := ascii_space;
  space2 := λ a b, (byte a =? 194)%nat && ((byte b =? 133)%nat || (byte b =? 160)%nat);
  space3 := separator3
|}.

Definition IsNullOrWhiteSpace (s : string) : bool := only_spaces CharWhiteSpace s.

(** The [/TR] string of [install_daily_task.ps1]. *)
Definition taskCmd (a : action) : string :=
  "powershell.exe -NoProfile -ExecutionPolicy Bypass -File " +:+ quote +:+ runner a
    +:+ quote +:+ " -Mode " +:+ mode a +:+ " -ProjectRoot " +:+ quote +:+ root a +:+ quote.

(** [schtasks /Create /F /TN tn ...]: the task named [tn] is created, or
    replaced when it exists; a refused request changes nothing. The exit
    code comes first. Tasks are held under their names as written: a
    scheduler in which an install meets a task whose name differs from its
    own in the case of letters only is outside this model. *)
Definition create_force (h : Host) (tn : string) (t : task) (tasks : gmap string task)
  : Z * gmap string task :=
  if accepts h tn t then (0, <[tn := t]> tasks) else (1, tasks).

(** [schtasks /Query /TN tn] *)
Definition query (tn : string) (tasks : gmap string task) : Z :=
  match tasks !! tn with Some _ => 0 | None => 1 end.

Record Params : Type := {
  Time : string;
  Mode : string;
  TaskBase : string;
  ProjectRoot : string
}.

Definition default_Mode : string := "python".
Definition default_TaskBase : string := "Valyro - Daily Scrape".

Definition taskDaily (p : Params) : string := TaskBase p +:+ " (Daily)".
Definition taskLogon (p : Params) : string := TaskBase p +:+ " (OnLogon)".

Definition project_root (h : Host) (given : string) : string :=
  if IsNullOrWhiteSpace given then here h else given.

Inductive outcome : Type :=
| Completed (exit_codes : list Z) (tasks : gmap string task)
| Threw (message : string).

(** [install_daily_task.ps1]. [Time] is a mandatory string parameter:
    binding the empty text to it fails and the script stops before its
    first statement. The exit codes of the four [schtasks] calls go to
    [Out-Null]; past the binding only the missing runner stops the
    script. *)
Definition install (h : Host) (p : Params) (tasks : gmap string task) : outcome :=
  if String.eqb (Time p) "" then
    Threw "Cannot bind argument to parameter 'Time' because it is an empty string."
  else
  let ProjectRoot := project_root h (ProjectRoot p) in
  let runner := Join_Path ProjectRoot "scripts\run_daily_scrape.ps1" in
  if negb (Test_Path h runner) then Threw ("No existe: " +:+ runner)
  else
    let cmd := {| runner := runner; mode := Mode p; root := ProjectRoot |} in
    let '(c1, tasks) :=
      create_force h (taskDaily p) {| sc := DAILY (Time p); tr := cmd; rl := "LIMITED" |} tasks in
    let '(c2, tasks) :=
      create_force h (taskLogon p) {| sc := ONLOGON; tr := cmd; rl := "LIMITED" |} tasks in
    Completed [c1; c2; query (taskDaily p) tasks; query (taskLogon p) tasks] tasks.

(** An install succeeded when the script completed and every [schtasks]
    call returned zero. *)
Definition installed (o : outcome) : option (gmap string task) :=
  match o with
  | Completed codes tasks => if forallb (Z.eqb 0) codes then Some tasks else None
  | Threw _ => None
  end.

(** What [run_daily_scrape.ps1] launches. *)
Inductive launch : Type :=
| Launch (program : string) (arguments : list string)
| Crash (exit_code : Z).

(** A letter in upper case; any other byte as it is. *)
Definition upper (c : Ascii.ascii) : Ascii.ascii :=
  if (97 <=? byte c)%nat && (byte c <=? 122)%nat
  then Ascii.ascii_of_nat (byte c - 32) else c.

(** [a -eq b] on two strings: the case of letters is not told apart. *)
Fixpoint eq_ignoring_case (a b : string) : bool :=
  match a, b with
  | EmptyString, EmptyString => true
  | String x a, String y b => Ascii.eqb (upper x) (upper y) && eq_ignoring_case a b
  | _, _ => false
  end.

Definition run_daily_scrape (h : Host) (Mode ProjectRoot : string) : launch :=
  let ProjectRoot := project_root h ProjectRoot in
  if eq_ignoring_case Mode "exe" then
    let exePath := Join_Path ProjectRoot "valyro.exe" in
    if negb (Test_Path h exePath) then Crash 99
    else Launch exePath ["--daily-scrape"; "--headless"]
  else
    let venvPy := Join_Path ProjectRoot ".venv\Scripts\python.exe" in
    if Test_Path h venvPy then Launch venvPy ["-m"; "scripts.daily_scrape"]
    else
      match python_on_path h with
      | Some py => Launch py ["-m"; "scripts.daily_scrape"]
      | None => Crash 99
      end.

(** A trigger firing runs the task's command line. *)
Definition fire (h : Host) (t : task) : launch :=
  run_daily_scrape h (mode (tr t)) (root (tr t)).

End Schtasks.

(** ** frontend/src/app/api/valyro.ts: addresses *)

Module Urls.

(** The page the client runs in: the configured base address
    ([VITE_API_BASE_URL ?? '/api/v1']), the [origin] of a parsed address
    ([None] when [new URL] throws) and [window.location.origin]. *)
Record Env : Type := {
  BASE_URL : string;
  URL_origin : string → option string;
  location_origin : string
}.

(** [s.startsWith(p)] *)
Definition startsWith (s p : string) : bool := String.prefix p s.

Definition is_http (s : string) : bool :=
  startsWith s "http://" || startsWith s "https://".

Definition apiOrigin (E : Env) : string :=
  if is_http (BASE_URL E) then
    match URL_origin E (BASE_URL E) with
    | Some origin => origin
    | None => location_origin E
    end
  else location_origin E.

(** The separator of the two templates: [s.startsWith('/') ? '' : '/']. *)
Definition separator (s : string) : string :=
  if startsWith s "/" then "" else "/".

Definition toAbsoluteUrl (E : Env) (maybeRelative : string) : string :=
  if String.eqb maybeRelative "" then maybeRelative
  else if is_http maybeRelative then maybeRelative
  else apiOrigin E +:+ separator maybeRelative +:+ maybeRelative.

(** The [url] of [apiJson]. *)
Definition url (E : Env) (path : string) : string :=
  BASE_URL E +:+ separator path +:+ path.

Record CompareResponse : Type := {
  comparison : list jsval;
  plot_url : option string;
  selected : list string
}.

(** What [compareKeywords] does to the response before returning it. *)
Definition compareKeywords_result (E : Env) (r : CompareResponse) : CompareResponse :=
  match plot_url r with
  | Some u =>
      if String.eqb u "" then r
      else {| comparison := comparison r;
              plot_url := Some (toAbsoluteUrl E u);
              selected := selected r |}
  | None => r
  end.

End Urls.

(** ** frontend/src/app/utils/searchIcon.tsx *)

Module SearchIcon.

Inductive icon : Type :=
| Watch | Car | Gamepad2 | Smartphone | Laptop | Bike | Home | Shirt | Wrench
| BookOpen | BriefcaseBusiness | Package.

(** The three text operations of [norm] that the host provides. *)
Class Unicode : Type := {
  toLowerCase : string → string;
  normalize_NFD : string → string;
  strip_marks : string → string
}.

Definition norm `{Unicode} (s : string) : string :=
  trim (strip_marks (normalize_NFD (toLowerCase s))).

(** [h.includes(n)]: [n] starts at some position of [h]. *)
Fixpoint includes (h n : string) : bool :=
  String.prefix n h
  || match h with
     | String _ rest => includes rest n
     | EmptyString => false
     end.

Fixpoint hasAny (haystack : string) (needles : list string) : bool :=
  match needles with
  | [] => false
  | n :: rest => if includes haystack n then true else hasAny haystack rest
  end.

Definition watches : list string :=
  ["reloj"; "relojes"; "seiko"; "rolex"; "omega"; "casio"; "gshock"; "g-shock";
   "tissot"; "swatch"; "citizen"; "longines"; "tag heuer"; "tagheuer"; "hamilton";
   "breitling"; "cartier"; "patek"; "audemars"].
Definition cars : list string :=
  ["coche"; "coches"; "vehiculo"; "bmw"; "audi"; "mercedes"; "volkswagen"; "vw";
   "opel"; "renault"; "peugeot"; "citroen"; "ford"; "toyota"; "hyundai"; "kia";
   "tesla"; "nissan"].
Definition games : list string :=
  ["ps5"; "ps4"; "playstation"; "xbox"; "nintendo"; "switch"; "wii"; "steam deck";
   "steamdeck"; "gameboy"].
Definition phones : list string :=
  ["iphone"; "samsung"; "xiaomi"; "redmi"; "huawei"; "pixel"; "movil"; "telefono";
   "smartphone"; "android"].
Definition computers : list string :=
  ["macbook"; "portatil"; "laptop"; "ordenador"; "pc"; "imac"; "rtx"; "gtx";
   "gaming"; "monitor"; "teclado"; "raton"].
Definition bikes : list string :=
  ["bici"; "bicicleta"; "bicicletas"; "mtb"; "btt"; "carretera"].
Definition furniture : list string :=
  ["sofa"; "sillon"; "mesa"; "silla"; "cama"; "armario"; "mueble"; "lampara"].
Definition fashion : list string :=
  ["zapatilla"; "zapatillas"; "nike"; "adidas"; "ropa"; "camiseta"; "chaqueta";
   "pantalon"; "bolso"].
Definition tools : list string :=
  ["herramienta"; "taladro"; "llave inglesa"; "destornillador"; "recambio";
   "neumatico"; "neumaticos"].
Definition books : list string := ["libro"; "comic"; "comics"; "novela"; "manga"].
Definition jobs : list string := ["empleo"; "trabajo"; "oferta"; "cv"; "curriculum"].

(** The chain of tests of [iconForSearchQuery] on the normalised text. *)
Definition icon_of (q : string) : icon :=
  if hasAny q watches then Watch
  else if hasAny q cars then Car
  else if hasAny q games then Gamepad2
  else if hasAny q phones then Smartphone
  else if hasAny q computers then Laptop
  else if hasAny q bikes then Bike
  else if hasAny q furniture then Home
  else if hasAny q fashion then Shirt
  else if hasAny q tools then Wrench
  else if hasAny q books then BookOpen
  else if hasAny q jobs then BriefcaseBusiness
  else Package.

Definition iconForSearchQuery `{Unicode} (query : string) : icon :=
  icon_of (norm query).

End SearchIcon.

(** ** frontend/src/app/App.tsx: the cards and the selected product *)

Module Cards.
Import App.

Record Recent : Type := {
  keyword : string;
  medianPrice : jsval;
  priceChange : float;
  icon : SearchIcon.icon
}.

Section with_unicode.
Context `{SearchIcon.Unicode}.

(** [priceChangeByKw[kw] ?? 0] *)
Definition change_of (st : State) (kw : string) : float :=
  default PrimFloat.zero (priceChangeByKw st !! kw).

Definition recentSearches (st : State) : list Recent :=
  (λ r, {| keyword := App.keyword r;
           medianPrice := median r;
           priceChange := change_of st (App.keyword r);
           icon := SearchIcon.iconForSearchQuery (App.keyword r) |})
    <$> slice0 4 (tableRows st).

(** [recentSearches.find((p) => p.keyword === keyword)] *)
Definition find_card (kw : string) (cards : list Recent) : option Recent :=
  list_find (λ p, keyword p = kw) cards ≫= λ ip, Some ip.2.

(** The product [handleTableProductClick] selects. *)
Definition handleTableProductClick (st : State) (kw : string) (medianPrice : jsval) : Recent :=
  match find_card kw (recentSearches st) with
  | Some p => p
  | None =>
      {| keyword := kw;
         medianPrice := medianPrice;
         priceChange := change_of st kw;
         icon := SearchIcon.iconForSearchQuery kw |}
  end.

(** [priceEvolution], the placeholder series of the main chart. *)
Definition priceEvolution (st : State) : list (string * jsval) :=
  let median :=
    coalesce (default JUndef (App.median <$> head (tableRows st))) (JNum PrimFloat.zero) in
  (λ d, (d, median)) <$> ["-7"; "-6"; "-5"; "-4"; "-3"; "-2"; "-1"; "hoy"].

End with_unicode.

End Cards.

(** ** frontend/src/app/components/RecentSearchCard.tsx *)

Module RecentSearchCard.

Inductive arrow : Type := TrendingUp | TrendingDown | Minus.

Record badge : Type := {
  badgeClass : string;
  sign : string;
  shown : float;
  ArrowIcon : arrow
}.

Definition isUp (priceChange : float) : bool := PrimFloat.ltb PrimFloat.zero priceChange.
Definition isDown (priceChange : float) : bool := PrimFloat.ltb priceChange PrimFloat.zero.

(** The badge of a card: its colour class, the sign written before the
    percentage, the percentage, and the arrow. *)
Definition badge_of (priceChange : float) : badge :=
  {| badgeClass :=
       if isUp priceChange then "bg-green-500/20 text-green-300"
       else if isDown priceChange then "bg-red-500/20 text-red-300"
       else "bg-slate-500/20 text-slate-300";
     sign := if isUp priceChange then "+" else "";
     shown := priceChange;
     ArrowIcon :=
       if isUp priceChange then TrendingUp
       else if isDown priceChange then TrendingDown
       else Minus |}.

End RecentSearchCard.

(** ** frontend/src/app/components/ProductDetailPanel.tsx: the state *)

Module Panel.

Record Run : Type := {
  run_scraped_at : string;
  run_n : jsval;
  run_media : jsval;
  run_minimo : jsval;
  run_maximo : jsval
}.

Record KeywordRunsResponse : Type := {
  runs_keyword : string;
  runs : option (list Run)
}.

Record State : Type := {
  stats : option KeywordStatsResponse;
  runs_shown : option KeywordRunsResponse;
  series : option KeywordSeriesResponse;
  loading : bool;
  err : option exn
}.

Section with_runtime.
Context `{Runtime}.

(** The condition [seriesChartData.length > 1] under which the evolution
    chart is drawn. *)
Definition chart_drawn (st : State) : bool :=
  (1 <? length (Detail.seriesChartData (series st)))%nat.

End with_runtime.

End Panel.

(** ** frontend/src/app/sections/CompareSection.tsx: the selection *)

Module Selection.

(** [selected], a plain object used as a set of keywords: its own
    properties in the order [Object.keys] lists them, the names that are
    array indices first, in ascending order, then the other names in the
    order in which they were created. *)
Abbreviation object := (list (string * bool)).

Definition digit (c : Ascii.ascii) : option N :=
  let n := Ascii.N_of_ascii c in
  if ((48 <=? n) && (n <=? 57))%N then Some (n - 48)%N else None.

Fixpoint decimal (acc : N) (s : string) : option N :=
  match s with
  | EmptyString => Some acc
  | String c rest =>
      match digit c with
      | Some d => decimal (acc * 10 + d)%N rest
      | None => None
      end
  end.

(** The array index a property name is, if it is one: the decimal
    numeral, without leading zeros, of an integer below 2^32 - 1. *)
Definition array_index (k : string) : option N :=
  match k with
  | EmptyString => None
  | String "0" EmptyString => Some 0%N
  | String "0" _ => None
  | _ =>
      match decimal 0 k with
      | Some n => if (n <? 4294967295)%N then Some n else None
      | None => None
      end
  end.

(** Whether a new property named [k] is listed before an existing one
    named [k']. *)
Definition before (k k' : string) : bool :=
  match array_index k, array_index k' with
  | Some n, Some n' => (n <? n')%N
  | Some _, None => true
  | None, _ => false
  end.

(** The own property [k] of an object. *)
Fixpoint own (o : object) (k : string) : option bool :=
  match o with
  | [] => None
  | (k', v) :: rest => if String.eqb k k' then Some v else own rest k
  end.

(** A new property takes its place among the keys. *)
Fixpoint create (k : string) (v : bool) (o : object) : object :=
  match o with
  | [] => [(k, v)]
  | (k', v') :: rest =>
      if before k k' then (k, v) :: o else (k', v') :: create k v rest
  end.

(** An existing property keeps its place. *)
Fixpoint assign (k : string) (v : bool) (o : object) : object :=
  match o with
  | [] => []
  | (k', v') :: rest =>
      if String.eqb k k' then (k', v) :: rest else (k', v') :: assign k v rest
  end.

(** The definition of a property by an object literal, computed keys
    included. *)
Definition define (k : string) (v : bool) (o : object) : object :=
  match own o k with
  | Some _ => assign k v o
  | None => create k v o
  end.

(** [{ ...prev }]: the own properties of [prev] are defined one by one,
    in the order of its keys, on a new object. *)
Definition spread (prev : object) : object :=
  foldl (λ o kv, define kv.1 kv.2 o) [] prev.

Section realm.
(** The names every object literal inherits from [Object.prototype]
    ([constructor], [toString], ...): each holds a function, or under
    [__proto__] the prototype itself, a value that counts as true. *)
Variable inherited : string → bool.

(** [!!o[k]]: the own property, or else the inherited one. *)
Definition read (o : object) (k : string) : bool :=
  match own o k with
  | Some v => v
  | None => inherited k
  end.

(** [toggle(kw)]: [{ ...prev, [kw]: !prev[kw] }] *)
Definition toggle (kw : string) (prev : object) : object :=
  define kw (negb (read prev kw)) (spread prev).

(** [checked={!!selected[kw]}] *)
Definition checked (selected : object) (kw : string) : bool := read selected kw.

(** [selected] after the boxes of [clicks] were clicked in turn, from the
    empty object of the first render. *)
Definition clicked (clicks : list string) : object :=
  foldl (λ o kw, toggle kw o) [] clicks.

End realm.

(** [Object.keys(selected).filter((k) => selected[k])], the keywords
    [onCompare] sends and the chart is given. *)
Definition kws (selected : object) : list string :=
  filter (λ k, own selected k = Some true) selected.*1.

End Selection.

(** ** frontend/src/app/components/CompareEvolutionChart.tsx *)

Module CompareEvolutionChart.

Definition COLORS : list string :=
  ["#13C1AC"; "#60a5fa"; "#f59e0b"; "#ef4444"; "#a78bfa"; "#22c55e"; "#f97316"].

(** [COLORS[i % COLORS.length]], [None] for [undefined]. *)
Definition stroke (i : nat) : option string :=
  COLORS !! (i `mod` length COLORS)%nat.

(** One line per keyword: its data key and its colour. *)
Definition lines (keywords : list string) : list (string * option string) :=
  imap (λ i kw, (kw, stroke i)) keywords.

End CompareEvolutionChart.

(** ** frontend/src/app/sections/DailySection.tsx *)

Module Daily.

(** A price bound of a row: a number, or [null]. *)
Inductive bound : Type :=
| Null
| Value (x : float).

(** A row of the daily configuration; [None] is a property the object
    does not have. *)
Record Row : Type := {
  keyword : string;
  min_price : option bound;
  max_price : option bound;
  filter_mode : option FilterMode;
  exclude_bad_text : option bool
}.

(** [Partial<Row>]: the properties a patch carries. *)
Record Patch : Type := {
  set_keyword : option string;
  set_min_price : option bound;
  set_max_price : option bound;
  set_filter_mode : option FilterMode;
  set_exclude_bad_text : option bool
}.

Definition over {A} (old : option A) (new : option A) : option A :=
  match new with
  | Some a => Some a
  | None => old
  end.

(** [{ ...r, ...patch }] *)
Definition spread (r : Row) (patch : Patch) : Row :=
  {| keyword := default (keyword r) (set_keyword patch);
     min_price := over (min_price r) (set_min_price patch);
     max_price := over (max_price r) (set_max_price patch);
     filter_mode := over (filter_mode r) (set_filter_mode patch);
     exclude_bad_text := over (exclude_bad_text r) (set_exclude_bad_text patch) |}.

Definition updateRow (i : nat) (patch : Patch) (prev : list Row) : list Row :=
  imap (λ idx r, if decide (idx = i) then spread r patch else r) prev.

Definition addRow (prev : list Row) : list Row :=
  prev ++ [{| keyword := ""; min_price := Some Null; max_price := Some Null;
              filter_mode := Some soft; exclude_bad_text := Some true |}].

(** [a.filter((x, idx) => keep idx x)], the index counted from [n]. *)
Fixpoint filter_from {A} (keep : nat → A → bool) (n : nat) (a : list A) : list A :=
  match a with
  | [] => []
  | x :: rest =>
      if keep n x then x :: filter_from keep (S n) rest
      else filter_from keep (S n) rest
  end.

Definition removeRow (i : nat) (prev : list Row) : list Row :=
  filter_from (λ idx _, negb (idx =? i)%nat) 0 prev.

Definition no_patch : Patch :=
  {| set_keyword := None; set_min_price := None; set_max_price := None;
     set_filter_mode := None; set_exclude_bad_text := None |}.

Section with_runtime.
Context `{Runtime}.

(** The value the two price cells put in their patch:
    [e.target.value === '' ? null : Number(e.target.value)]. *)
Definition typed_bound (value : string) : bound :=
  if String.eqb value "" then Null else Value (StringToNumber value).

Definition min_price_changed (value : string) : Patch :=
  {| set_keyword := None; set_min_price := Some (typed_bound value);
     set_max_price := None; set_filter_mode := None; set_exclude_bad_text := None |}.

Definition max_price_changed (value : string) : Patch :=
  {| set_keyword := None; set_min_price := None;
     set_max_price := Some (typed_bound value); set_filter_mode := None;
     set_exclude_bad_text := None |}.

End with_runtime.

Definition json_bound (b : bound) : jsval :=
  match b with
  | Null => JNull
  | Value x => json_number x
  end.

(** A row as [JSON.stringify] writes it in the body of [saveDailyConfig]. *)
Definition row_json (r : Row) : list (string * jsval) :=
  [("keyword", JStr (keyword r))]
  ++ json_field "min_price" json_bound (min_price r)
  ++ json_field "max_price" json_bound (max_price r)
  ++ json_field "filter_mode" (λ m, JStr (FilterMode_name m)) (filter_mode r)
  ++ json_field "exclude_bad_text" JBool (exclude_bad_text r).

(** The body of [saveDailyConfig(rows)]: the object [{ rows }]. *)
Definition save_body (rows : list Row) : list (list (string * jsval)) :=
  row_json <$> rows.

End Daily.

(** ** A host and sample data for the worked examples *)

Module Sample.

(** The instants of three runs, one a day at 09:30 UTC, in milliseconds
    since the epoch. *)
Definition clock : list (string * Z) :=
  [("2024-01-01T09:30:00Z", 1704101400000);
   ("2024-01-02T09:30:00Z", 1704187800000);
   ("2024-01-03T09:30:00Z", 1704274200000)].

Fixpoint instant_of (s : string) (known : list (string * Z)) : option Z :=
  match known with
  | [] => None
  | (k, t) :: rest => if String.eqb s k then Some t else instant_of s rest
  end.

(** The body of a 404 answer in the documented envelope,
    [{"error":{"message":"Keyword not found"}}]. *)
Definition q : string := String "034"%char "".
Definition not_found_text : string :=
  "{" +:+ q +:+ "error" +:+ q +:+ ":{" +:+ q +:+ "message" +:+ q +:+ ":" +:+ q
    +:+ "Keyword not found" +:+ q +:+ "}}".
Definition not_found_json : jsval :=
  JObj [("error", JObj [("message", JStr "Keyword not found")])].

(** The body of the answer to [GET /keywords] of a server that tracks the
    keywords [k0 .. k29], in that order: a JSON array of strings. *)
Definition all_keywords : list jsval :=
  (λ i : nat, JStr ("k" +:+ pretty i)) <$> seq 0 30.
Definition keywords_text : string :=
  "[" +:+ String.concat "," ((λ i : nat, q +:+ "k" +:+ pretty i +:+ q) <$> seq 0 30) +:+ "]".

(** The body [["A","E"]]. *)
Definition keywords_AE_text : string :=
  "[" +:+ q +:+ "A" +:+ q +:+ "," +:+ q +:+ "E" +:+ q +:+ "]".

Definition numerals : list (string * float) :=
  [("0", 0%float); ("50", 50%float); ("100", 100%float); ("320", 320%float);
   ("1e999", PrimFloat.infinity); ("Infinity", PrimFloat.infinity)].

Fixpoint numeral (s : string) (known : list (string * float)) : float :=
  match known with
  | [] => PrimFloat.nan
  | (k, x) :: rest => if String.eqb s k then x else numeral s rest
  end.

(** A host that answers on exactly the texts used below, in the UTC time
    zone of January 2024; any other text is not a date, not a number and
    not JSON to it. *)
#[export] Instance host : Runtime := {|
  JSON_parse := λ s,
    if String.eqb s not_found_text then Some not_found_json
    else if String.eqb s keywords_text then Some (JArr all_keywords)
    else if String.eqb s keywords_AE_text then Some (JArr [JStr "A"; JStr "E"])
    else None;
  StringToNumber := λ s, numeral s numerals;
  ObjectToNumber := λ _, PrimFloat.nan;
  Date_getTime := λ s, instant_of s clock;
  Date_local := λ t, (2024, 0, (t - 1704067200000) `div` 86400000 + 1)
|}.

Definition t1 : string := "2024-01-01T09:30:00Z".
Definition t2 : string := "2024-01-02T09:30:00Z".
Definition t3 : string := "2024-01-03T09:30:00Z".

Definition point (ts : string) (m : float) : SeriesPoint :=
  {| pt_scraped_at := ts; pt_media := JNum m; pt_mediana := JNum m |}.

(** Keyword A was scraped at [t1] and [t2] (stored newest first), keyword
    B at [t1] only. *)
Definition series_A : KeywordSeriesResponse :=
  {| ser_keyword := "A"; ser_series := Some [point t2 110; point t1 100] |}.
Definition series_B : KeywordSeriesResponse :=
  {| ser_keyword := "B"; ser_series := Some [point t1 50] |}.
(** A keyword whose earlier median is zero. *)
Definition series_Z : KeywordSeriesResponse :=
  {| ser_keyword := "Z"; ser_series := Some [point t1 0; point t2 50] |}.

Definition stats_of (kw : string) (q1 q3 : float) : KeywordStatsResponse :=
  {| ks_keyword := kw;
     ks_scraped_at := t2;
     ks_stats := Some {| st_n := JNum 5; st_mediana := JNum 350; st_q1 := JNum q1;
                         st_q2 := JNum 350; st_q3 := JNum q3 |};
     ks_price_ranges :=
       Some {| pr_normal := Some {| band_from := JNum q1; band_to := JNum q3 |} |} |}.

(** The latest run of a keyword that retained no listing: every statistic
    is [null] and no band is present. *)
Definition empty_run : KeywordStatsResponse :=
  {| ks_keyword := "E";
     ks_scraped_at := t2;
     ks_stats := Some {| st_n := JNum 0; st_mediana := JNull; st_q1 := JNull;
                         st_q2 := JNull; st_q3 := JNull |};
     ks_price_ranges := Some {| pr_normal := None |} |}.

(** The same run from a server that sends the band with [null] bounds. *)
Definition empty_run_null_bounds : KeywordStatsResponse :=
  {| ks_keyword := "E";
     ks_scraped_at := t2;
     ks_stats := ks_stats empty_run;
     ks_price_ranges :=
       Some {| pr_normal := Some {| band_from := JNull; band_to := JNull |} |} |}.

Definition kw_name (kw : jsval) : string :=
  match kw with
  | JStr s => s
  | _ => ""
  end.

Definition answers (keywords : string) : Backend :=
  {| keywords_response := Ok {| status := 200; body := Some keywords |};
     getKeywordStats := λ kw,
       if String.eqb (kw_name kw) "E" then Ok empty_run
       else Ok (stats_of (kw_name kw) 320 400);
     getKeywordSeries := λ kw,
       if String.eqb kw "B" then Ok series_B
       else if String.eqb kw "Z" then Ok series_Z
       else Ok series_A |}.

Definition server : Backend := answers keywords_text.

(** A server that tracks A and the keyword E of the empty run. *)
Definition server_AE : Backend := answers keywords_AE_text.

Definition idle : App.State :=
  {| App.loading := false; App.error := None; App.tableRows := [];
     App.priceChangeByKw := ∅ |}.

(** A machine with the project checked out at [C:\valyro] and a scheduler
    that takes start times of the form HH:mm. *)
Definition is_digit (c : ascii) : bool :=
  let n := nat_of_ascii c in (48 <=? n)%nat && (n <=? 57)%nat.

Definition well_formed_time (s : string) : bool :=
  match s with
  | String a (String b (String c (String d (String e EmptyString)))) =>
      is_digit a && is_digit b && Ascii.eqb c ":" && is_digit d && is_digit e
  | _ => false
  end.

Definition pc : Schtasks.Host :=
  {| Schtasks.Test_Path := λ f, String.eqb f "C:\valyro\scripts\run_daily_scrape.ps1";
     Schtasks.here := "C:\valyro";
     Schtasks.python_on_path := Some "C:\Python312\python.exe";
     Schtasks.accepts := λ _ t,
       match Schtasks.sc t with
       | Schtasks.DAILY st => well_formed_time st
       | Schtasks.ONLOGON => true
       end |}.

Definition at_time (time : string) : Schtasks.Params :=
  {| Schtasks.Time := time;
     Schtasks.Mode := Schtasks.default_Mode;
     Schtasks.TaskBase := Schtasks.default_TaskBase;
     Schtasks.ProjectRoot := "" |}.

(** The search form with two price bounds typed in. *)
Definition typed (lo hi : string) : SearchBar.Form :=
  {| SearchBar.searchTerm := " iphone 14 pro "; SearchBar.minPrice := lo; SearchBar.maxPrice := hi;
     SearchBar.filterMode := soft; SearchBar.excludeBadText := true |}.

End Sample.

(** ** More hosts and data for the worked examples *)

Module Fixtures.

(** The page is served by the application itself and the base address is
    the default one. *)
Definition local_page : Urls.Env :=
  {| Urls.BASE_URL := "/api/v1";
     Urls.URL_origin := λ _, None;
     Urls.location_origin := "http://127.0.0.1:5000" |}.

(** A server that answers [GET /keywords] with a 503 and a plain text. *)
Definition server_down : Backend :=
  {| keywords_response := Ok {| status := 503; body := Some "Service Unavailable" |};
     getKeywordStats := getKeywordStats Sample.server;
     getKeywordSeries := getKeywordSeries Sample.server |}.

(** A server that answers [GET /keywords] with a 200 and no body. *)
Definition server_silent : Backend :=
  {| keywords_response := Ok {| status := 200; body := Some "" |};
     getKeywordStats := getKeywordStats Sample.server;
     getKeywordSeries := getKeywordSeries Sample.server |}.

(** The thirty keywords again, the stats of [k7] failing with a 404. *)
Definition server_k7_missing : Backend :=
  {| keywords_response := keywords_response Sample.server;
     getKeywordStats := λ kw,
       if String.eqb (Sample.kw_name kw) "k7" then Throw (Error (JStr "Not Found"))
       else getKeywordStats Sample.server kw;
     getKeywordSeries := getKeywordSeries Sample.server |}.

(** A dashboard that already shows one row and one percentage. *)
Definition showing : App.State :=
  {| App.loading := false;
     App.error := None;
     App.tableRows :=
       [{| App.keyword := "ps5"; App.lastAnalysis := "01/01/2024"; App.median := JNum 350;
           App.q1 := JNum 320; App.q2 := JNum 350; App.q3 := JNum 400;
           App.normalRange := [Num 320; Lit "€ - "; Num 400; Lit "€"] |}];
     App.priceChangeByKw := {[ "ps5" := 4.5%float ]} |}.

(** Text operations that are right on ASCII text: capital letters are
    lowered, and there is nothing to decompose or to strip. *)
Definition lower (c : ascii) : ascii :=
  let n := nat_of_ascii c in
  if (65 <=? n)%nat && (n <=? 90)%nat then ascii_of_nat (n + 32) else c.

Fixpoint lower_all (s : string) : string :=
  match s with
  | EmptyString => EmptyString
  | String c rest => String (lower c) (lower_all rest)
  end.

#[export] Instance ascii_text : SearchIcon.Unicode := {|
  SearchIcon.toLowerCase := lower_all;
  SearchIcon.normalize_NFD := λ s, s;
  SearchIcon.strip_marks := λ s, s
|}.

(** A dashboard showing the rows of A, B and Z, with a percentage held
    for B only. *)
Definition row_for (kw : string) (m : float) : App.ComparisonRow :=
  {| App.keyword := kw; App.lastAnalysis := "02/01/2024"; App.median := JNum m;
     App.q1 := JNum 320; App.q2 := JNum m; App.q3 := JNum 400;
     App.normalRange := [Num 320; Lit "€ - "; Num 400; Lit "€"] |}.

Definition three_rows : App.State :=
  {| App.loading := false;
     App.error := None;
     App.tableRows := [row_for "A" 110; row_for "B" 50; row_for "Z" 50];
     App.priceChangeByKw := {[ "B" := 2.5%float ]} |}.

(** The sample server, the series of B failing. *)
Definition server_B_failing : Backend :=
  {| keywords_response := keywords_response Sample.server;
     getKeywordStats := getKeywordStats Sample.server;
     getKeywordSeries := λ kw,
       if String.eqb kw "B" then Throw NetworkError else getKeywordSeries Sample.server kw |}.


(** A tracked keyword that is literally [date], scraped at [t1]. *)
Definition series_named_date : KeywordSeriesResponse :=
  {| ser_keyword := "date"; ser_series := Some [Sample.point Sample.t1 75] |}.

(** A series with a timestamp the host cannot read as a date. *)
Definition series_undated : KeywordSeriesResponse :=
  {| ser_keyword := "A";
     ser_series := Some [Sample.point "yesterday" 90; Sample.point Sample.t1 100;
                         Sample.point "yesterday" 95] |}.

(** The search form with a term typed in and nothing else touched. *)
Definition searching (term : string) : SearchBar.Form :=
  {| SearchBar.searchTerm := term; SearchBar.minPrice := ""; SearchBar.maxPrice := "";
     SearchBar.filterMode := soft; SearchBar.excludeBadText := true |}.

(** Keyword E had a run with a median of 100 at [t1]; its latest run, at
    [t2], retained no listing: the mean and the median are [null]. *)
Definition series_E : KeywordSeriesResponse :=
  {| ser_keyword := "E";
     ser_series := Some [Sample.point Sample.t1 100;
                         {| pt_scraped_at := Sample.t2; pt_media := JNull;
                            pt_mediana := JNull |}] |}.

(** The sample server, answering the series of E. *)
Definition server_E : Backend :=
  {| keywords_response := keywords_response Sample.server_AE;
     getKeywordStats := getKeywordStats Sample.server_AE;
     getKeywordSeries := λ kw,
       if String.eqb kw "E" then Ok series_E else getKeywordSeries Sample.server_AE kw |}.

(** The property names of [Object.prototype] in a browser. *)
Definition Object_prototype (k : string) : bool :=
  bool_decide (k ∈ ["constructor"; "__defineGetter__"; "__defineSetter__";
                    "hasOwnProperty"; "__lookupGetter__"; "__lookupSetter__";
                    "isPrototypeOf"; "propertyIsEnumerable"; "toString"; "valueOf";
                    "__proto__"; "toLocaleString"]).
End Fixtures.

(** ** The vocabulary of the properties *)

Module SortSpec.

Section sort.
Context {A : Type} (cmp : A → A → option Z) (key : A → Z).

(** The comparator orders the elements of [l] by [key]. *)
Definition keyed (l : list A) : Prop :=
  ∀ a b, a ∈ l → b ∈ l → cmp a b = Some (key a - key b).

Definition ascending : relation A := λ a b, key a ≤ key b.

End sort.

End SortSpec.

Module SeriesSpec.

Section with_runtime.
Context `{Runtime}.

(** The instant a point was scraped at, for a point whose [scraped_at] is
    a date. *)
Definition when (p : SeriesPoint) : Z := default 0 (Date_getTime (pt_scraped_at p)).

Definition dated (p : SeriesPoint) : Prop := is_Some (Date_getTime (pt_scraped_at p)).

Definition chronological : relation SeriesPoint := λ a b, when a ≤ when b.



End with_runtime.

End SeriesSpec.

Module DashboardSpec.

(** The keywords whose latest stats, and whose series, were requested. *)
Definition stats_asked (sent : list request) : list jsval :=
  omap (λ r, match r with GET_stats kw => Some kw | _ => None end) sent.

Definition series_asked (sent : list request) : list string :=
  omap (λ r, match r with GET_series kw => Some kw | _ => None end) sent.

End DashboardSpec.

Module CompareSpec.
Import Compare.

(** The points of all the series, each with the keyword of its response,
    in the order the two loops visit them. *)
Definition visited (seriesList : list KeywordSeriesResponse) : list (string * SeriesPoint) :=
  seriesList ≫= λ s, (λ p, (ser_keyword s, p)) <$> default [] (ser_series s).

Definition timestamps (seriesList : list KeywordSeriesResponse) : list string :=
  (λ kp, pt_scraped_at kp.2) <$> visited seriesList.

(** The median of the last visited point of keyword [kw] scraped at [ts],
    if there is one. *)
Fixpoint last_median (ps : list (string * SeriesPoint)) (kw ts : string) : option jsval :=
  match ps with
  | [] => None
  | (k, p) :: rest =>
      match last_median rest kw ts with
      | Some v => Some v
      | None =>
          if bool_decide (k = kw ∧ pt_scraped_at p = ts) then Some (pt_mediana p) else None
      end
  end.

Section with_runtime.
Context `{Runtime}.

(** One turn of the inner loop, on a point paired with its keyword. *)
Definition step (byTs : table) (kp : string * SeriesPoint) : table :=
  add_point kp.1 byTs kp.2.

(** What the two loops have built after visiting [ps]. *)
Record built (ps : list (string * SeriesPoint)) (byTs : table) : Prop := {
  built_nodup : NoDup byTs.*1;
  built_keys : ∀ ts, ts ∈ byTs.*1 ↔ ts ∈ (λ kp, pt_scraped_at kp.2) <$> ps;
  built_cells : ∀ ts r kw,
    Map_get ts byTs = Some r → kw ≠ "date" → r !! kw = last_median ps kw ts
}.



End with_runtime.

End CompareSpec.

Module SearchBarSpec.

(** A text made of white space only (the empty text included). *)
Definition blank (s : string) : bool := only_spaces StrWhiteSpace s.

End SearchBarSpec.

Module ScheduleSpec.
Import Schtasks.

(** The command line both tasks are created with. *)
Definition command (h : Host) (p : Params) : action :=
  let ProjectRoot := project_root h (ProjectRoot p) in
  {| runner := Join_Path ProjectRoot "scripts\run_daily_scrape.ps1";
     mode := Mode p;
     root := ProjectRoot |}.

Definition daily_task (h : Host) (p : Params) : task :=
  {| sc := DAILY (Time p); tr := command h p; rl := "LIMITED" |}.

Definition logon_task (h : Host) (p : Params) : task :=
  {| sc := ONLOGON; tr := command h p; rl := "LIMITED" |}.

End ScheduleSpec.

Module SearchIconSpec.
Import SearchIcon.

(** The place of an icon in the chain of tests, the first being 0. *)
Definition rank (i : icon) : nat :=
  match i with
  | Watch => 0 | Car => 1 | Gamepad2 => 2 | Smartphone => 3 | Laptop => 4 | Bike => 5
  | Home => 6 | Shirt => 7 | Wrench => 8 | BookOpen => 9 | BriefcaseBusiness => 10
  | Package => 11
  end.

(** Every word the chain looks for. *)
Definition all_needles : list string :=
  watches ++ cars ++ games ++ phones ++ computers ++ bikes ++ furniture ++ fashion
    ++ tools ++ books ++ jobs.

End SearchIconSpec.

(** ** The body of the daily configuration *)

Module DailySpec.

(** What [JSON.stringify] may write for a price bound of a saved row: the
    property is absent, [null], or a finite number. *)
Definition sendable (v : option jsval) : Prop :=
  match v with
  | None | Some JNull => True
  | Some (JNum x) => Number_isFinite x = true
  | Some _ => False
  end.

End DailySpec.

(** ** The keys of the selection *)

Module SelectionSpec.
Import Selection.

(** [a] is listed no later than [b]. *)
Definition in_key_order : relation string := λ a b, before b a = false.

(** The keys of an object: no name twice, in the order of [Object.keys]. *)
Definition canonical (o : object) : Prop :=
  NoDup o.*1 ∧ StronglySorted in_key_order o.*1.

End SelectionSpec.

(** * Properties *)

(** ** The stable sort *)

Module SortFacts.
Import SortSpec.

Section sort.
Context {A : Type} (cmp : A → A → option Z) (key : A → Z).

Lemma keyed_cons x l : keyed cmp key (x :: l) → keyed cmp key l.
Proof. intros Hk a b Ha Hb. apply Hk; by right. Qed.


Lemma sort_insert_perm x l : sort_insert cmp x l ≡ₚ x :: l.
Proof.
  induction l as [|y l IH]; simpl; [done|].
  destruct (is_positive (cmp x y)); [|done].
  rewrite IH. apply perm_swap.
Qed.

Lemma Array_sort_perm l : Array_sort cmp l ≡ₚ l.
Proof.
  induction l as [|x l IH]; simpl; [done|].
  rewrite sort_insert_perm. by f_equiv.
Qed.

Lemma Array_sort_length l : length (Array_sort cmp l) = length l.
Proof. apply Permutation_length, Array_sort_perm. Qed.

Lemma sort_insert_sorted x l :
  (∀ y, y ∈ l → cmp x y = Some (key x - key y)) →
  StronglySorted (ascending key) l →
  StronglySorted (ascending key) (sort_insert cmp x l).
Proof.
  intros Hx Hl. induction Hl as [|y l Hl IH Hy]; simpl.
  { repeat constructor. }
  rewrite (Hx y) by left. simpl.
  destruct (Z.ltb_spec 0 (key x - key y)) as [Hlt|Hge].
  - constructor.
    + apply IH. intros z Hz. apply Hx. by right.
    + rewrite sort_insert_perm. constructor; [unfold ascending; lia|done].
  - constructor; [by constructor|]. constructor; [unfold ascending; lia|].
    eapply Forall_impl; [exact Hy|]. unfold ascending. intros z ?. simpl in *. lia.
Qed.

Lemma Array_sort_sorted l : keyed cmp key l → StronglySorted (ascending key) (Array_sort cmp l).
Proof.
  induction l as [|x l IH]; intros Hk; simpl; [constructor|].
  apply sort_insert_sorted.
  - intros y Hy. apply Hk; [by left|]. right. by rewrite <-(Array_sort_perm l).
  - apply IH. by eapply keyed_cons.
Qed.


(** The greatest element of a sorted list stands last. *)
Lemma sorted_last l0 x m z :
  StronglySorted (ascending key) (l0 ++ [x]) →
  l0 ++ [x] ≡ₚ m ++ [z] →
  Forall (λ y, key y < key z) m →
  x = z ∧ l0 ≡ₚ m.
Proof.
  intros Hs Hp Hm.
  assert (x = z) as ->.
  { assert (z ∈ l0 ++ [x]) as Hz by (rewrite Hp; apply elem_of_app; right; constructor).
    assert (x ∈ m ++ [z]) as Hx by (rewrite <-Hp; apply elem_of_app; right; constructor).
    apply elem_of_app in Hz as [Hz|Hz]; [|by inv Hz; [|inv select (_ ∈ [])]].
    apply elem_of_app in Hx as [Hx|Hx]; [|by inv Hx; [|inv select (_ ∈ [])]].
    assert (ascending key z x) as Hzx.
    { eapply StronglySorted_app_1_elem_of; [exact Hs|done|constructor]. }
    rewrite Forall_forall in Hm. specialize (Hm x Hx). unfold ascending in Hzx. lia. }
  split; [done|]. by apply (inj (.++ [z])).
Qed.

(** The two latest elements of a sorted list stand last, in order. *)
Lemma sorted_two_latest l older y z :
  StronglySorted (ascending key) l →
  l ≡ₚ older ++ [y; z] →
  Forall (λ o, key o < key y) older →
  key y < key z →
  ∃ l0, l = l0 ++ [y; z].
Proof.
  intros Hs Hp Hold Hyz.
  destruct l as [|a l'] using rev_ind.
  { apply Permutation_nil_l in Hp. by destruct older. }
  clear IHl'.
  destruct (sorted_last l' a (older ++ [y]) z) as [-> Hp'].
  - done.
  - by rewrite <-(assoc_L (++)).
  - apply Forall_app; split; [|by repeat constructor].
    eapply Forall_impl; [exact Hold|]. simpl. intros; lia.
  - apply StronglySorted_app_1_l in Hs.
    destruct l' as [|b l''] using rev_ind.
    { apply Permutation_nil_l in Hp'. by destruct older. }
    clear IHl''.
    destruct (sorted_last l'' b older y) as [-> _]; [done..|].
    exists l''. by rewrite <-(assoc_L (++)).
Qed.

End sort.

End SortFacts.

(** ** Comparisons of doubles with zero *)

Module FloatFacts.

Lemma finite_not_nan (x : float) : Number_isFinite x = true → Prim2SF x ≠ S754_nan.
Proof.
  unfold Number_isFinite, PrimFloat.is_finite, PrimFloat.is_nan.
  rewrite FloatAxioms.eqb_spec. intros Hfin Hnan. rewrite Hnan in Hfin. discriminate.
Qed.

(** A finite double is at most zero exactly when it is not above zero. *)
Lemma at_most_zero (x : float) :
  Number_isFinite x = true → PrimFloat.leb x 0 = negb (PrimFloat.ltb 0 x).
Proof.
  intros Hx%finite_not_nan. rewrite FloatAxioms.leb_spec, FloatAxioms.ltb_spec.
  change (Prim2SF 0) with (S754_zero false).
  destruct (Prim2SF x) as [[]|[]| |[] m e]; done.
Qed.

(** The guard of the card computation, read positively. *)
Lemma guard_spec (prev last : float) :
  negb (Number_isFinite prev) || PrimFloat.leb prev 0 || negb (Number_isFinite last)
  = negb (Number_isFinite prev && PrimFloat.ltb 0 prev && Number_isFinite last).
Proof.
  destruct (Number_isFinite prev) eqn:Hprev; simpl; [|done].
  rewrite at_most_zero by done.
  by destruct (PrimFloat.ltb 0 prev), (Number_isFinite last).
Qed.

End FloatFacts.

(** ** White space at the ends of a text *)

Module StringFacts.

Lemma app_nil_r (s : string) : s +:+ "" = s.
Proof.
  induction s as [|c s IH]; [done|].
  change (String c (s +:+ "") = String c s). by rewrite IH.
Qed.

Lemma app_assoc (a b c : string) : (a +:+ b) +:+ c = a +:+ (b +:+ c).
Proof.
  induction a as [|x a IH]; [done|].
  change (String x ((a +:+ b) +:+ c) = String x (a +:+ (b +:+ c))). by rewrite IH.
Qed.

Section white_space.
Variable W : WhiteSpace.

Lemma skip_spaces_eq (s : string) :
  skip_spaces W s
  = match after_space W s with
    | Some r => skip_spaces W r
    | None => s
    end.
Proof.
  destruct s as [|a [|b [|c r]]]; simpl; try done.
  - by destruct (space1 W a).
  - destruct (space1 W a); [done|]. by destruct (space2 W a b).
  - destruct (space1 W a); [done|]. destruct (space2 W a b); [done|].
    by destruct (space3 W a b c).
Qed.

Lemma only_spaces_eq (s : string) :
  only_spaces W s
  = match s with
    | EmptyString => true
    | _ => match after_space W s with
           | Some r => only_spaces W r
           | None => false
           end
    end.
Proof.
  destruct s as [|a [|b [|c r]]]; simpl; try done.
  - by destruct (space1 W a).
  - destruct (space1 W a); [done|]. by destruct (space2 W a b).
  - destruct (space1 W a); [done|]. destruct (space2 W a b); [done|].
    by destruct (space3 W a b c).
Qed.

Lemma after_space_length (s r : string) :
  after_space W s = Some r → (String.length r < String.length s)%nat.
Proof.
  destruct s as [|a [|b [|c r3]]]; simpl; try done.
  - destruct (space1 W a); [|done]. intros [= <-]. simpl. lia.
  - destruct (space1 W a); [intros [= <-]; simpl; lia|].
    destruct (space2 W a b); [|done]. intros [= <-]. simpl. lia.
  - destruct (space1 W a); [intros [= <-]; simpl; lia|].
    destruct (space2 W a b); [intros [= <-]; simpl; lia|].
    destruct (space3 W a b c); [|done]. intros [= <-]. simpl. lia.
Qed.

Lemma after_space_app (x r u : string) :
  after_space W x = Some r → after_space W (x +:+ u) = Some (r +:+ u).
Proof.
  destruct x as [|a [|b [|c r3]]]; try done.
  - change (String a "" +:+ u) with (String a u). simpl.
    destruct (space1 W a); [|done]. by intros [= <-].
  - change (String a (String b "") +:+ u) with (String a (String b u)). simpl.
    destruct (space1 W a); [by intros [= <-]|].
    destruct (space2 W a b); [|done]. by intros [= <-].
  - change (String a (String b (String c r3)) +:+ u)
      with (String a (String b (String c (r3 +:+ u)))). simpl.
    destruct (space1 W a); [by intros [= <-]|].
    destruct (space2 W a b); [by intros [= <-]|].
    destruct (space3 W a b c); [|done]. by intros [= <-].
Qed.

(** Induction along the white-space characters a text starts with. *)
Lemma space_ind (P : string → Prop) :
  P "" →
  (∀ s r, after_space W s = Some r → P r → P s) →
  (∀ s, s ≠ "" → after_space W s = None → P s) →
  ∀ s, P s.
Proof.
  intros Hnil Hstep Hstop s.
  remember (String.length s) as n eqn:Hn. revert s Hn.
  induction n as [n IH] using lt_wf_ind. intros s ->.
  destruct (decide (s = "")) as [->|Hs]; [done|].
  destruct (after_space W s) as [r|] eqn:Hr.
  - apply (Hstep s r Hr). apply (IH (String.length r)); [|done].
    by apply after_space_length.
  - by apply Hstop.
Qed.

Lemma skip_spaces_blank (s : string) : only_spaces W s = true → skip_spaces W s = "".
Proof.
  pattern s; apply space_ind; clear s; [done|intros s r Hr IH|intros s Hs Hr].
  - rewrite only_spaces_eq, skip_spaces_eq, Hr. by destruct s.
  - rewrite only_spaces_eq, Hr. by destruct s.
Qed.

Lemma only_spaces_skip (s : string) : only_spaces W (skip_spaces W s) = only_spaces W s.
Proof.
  pattern s; apply space_ind; clear s; [done|intros s r Hr IH|intros s Hs Hr].
  - rewrite skip_spaces_eq, Hr, IH, (only_spaces_eq s), Hr. by destruct s.
  - by rewrite skip_spaces_eq, Hr.
Qed.

Lemma skip_spaces_empty (s : string) : skip_spaces W s = "" → only_spaces W s = true.
Proof. intros Hs. by rewrite <-only_spaces_skip, Hs. Qed.

Lemma skip_spaces_idemp (s : string) :
  skip_spaces W (skip_spaces W s) = skip_spaces W s.
Proof.
  pattern s; apply space_ind; clear s; [done|intros s r Hr IH|intros s Hs Hr].
  - by rewrite (skip_spaces_eq s), Hr.
  - by rewrite !(skip_spaces_eq s), Hr, (skip_spaces_eq s), Hr.
Qed.

Lemma skip_spaces_fixed (s : string) :
  skip_spaces W s = s ↔ s = "" ∨ after_space W s = None.
Proof.
  split.
  - intros Hfix. destruct (decide (s = "")) as [|Hs]; [by left|]. right.
    destruct (after_space W s) as [r|] eqn:Hr; [|done].
    assert (String.length (skip_spaces W s) < String.length s)%nat as Hlt; [|rewrite Hfix in Hlt; lia].
    rewrite skip_spaces_eq, Hr. apply after_space_length in Hr.
    clear Hfix Hs. revert Hr. generalize (String.length s). clear s.
    pattern r; apply space_ind; clear r;
      [intros n Hn|intros r r' Hr' IH n Hn|intros r Hs' Hr' n Hn].
    + simpl in *. lia.
    + rewrite skip_spaces_eq, Hr'. apply IH. apply after_space_length in Hr'. lia.
    + by rewrite skip_spaces_eq, Hr'.
  - intros [->|Hr]; [done|]. by rewrite skip_spaces_eq, Hr.
Qed.

Lemma only_spaces_app (x u : string) :
  only_spaces W x = true → only_spaces W (x +:+ u) = only_spaces W u.
Proof.
  pattern x; apply space_ind; clear x; [done|intros x r Hr IH|intros x Hx Hr].
  - rewrite (only_spaces_eq x), Hr. destruct x as [|a x]; [done|]. intros Hblank.
    rewrite only_spaces_eq, (after_space_app _ _ u Hr).
    change (String a x +:+ u) with (String a (x +:+ u)). by apply IH.
  - rewrite only_spaces_eq, Hr. by destruct x.
Qed.

Lemma after_space_prefix (s r : string) :
  after_space W s = Some r → ∃ p, s = p +:+ r ∧ only_spaces W p = true.
Proof.
  destruct s as [|a [|b [|c r3]]]; simpl; try done.
  - destruct (space1 W a) eqn:H1; [|done]. intros [= <-].
    exists (String a ""). split; [done|]. simpl. by rewrite H1.
  - destruct (space1 W a) eqn:H1.
    + intros [= <-]. exists (String a ""). split; [done|]. simpl. by rewrite H1.
    + destruct (space2 W a b) eqn:H2; [|done]. intros [= <-].
      exists (String a (String b "")). split; [done|]. simpl. by rewrite H1, H2.
  - destruct (space1 W a) eqn:H1.
    + intros [= <-]. exists (String a ""). split; [done|]. simpl. by rewrite H1.
    + destruct (space2 W a b) eqn:H2.
      * intros [= <-]. exists (String a (String b "")).
        split; [done|]. simpl. by rewrite H1, H2.
      * destruct (space3 W a b c) eqn:H3; [|done]. intros [= <-].
        exists (String a (String b (String c ""))). split; [done|].
        simpl. by rewrite H1, H2, H3.
Qed.

Lemma skip_spaces_split (s : string) :
  ∃ l, s = l +:+ skip_spaces W s ∧ only_spaces W l = true.
Proof.
  pattern s; apply space_ind; clear s;
    [by exists ""|intros s r Hr (l & Hl & Hbl)|intros s Hs Hr].
  - destruct (after_space_prefix s r Hr) as (p & -> & Hp).
    exists (p +:+ l). split.
    + rewrite (skip_spaces_eq (p +:+ r)), Hr, app_assoc. by rewrite <-Hl.
    + by rewrite only_spaces_app.
  - exists "". by rewrite skip_spaces_eq, Hr.
Qed.

Lemma drop_spaces_end_split (s : string) :
  ∃ u, s = drop_spaces_end W s +:+ u ∧ only_spaces W u = true.
Proof.
  induction s as [|a s (u & Hu & Hbu)]; [by exists ""|].
  cbn [drop_spaces_end]. destruct (only_spaces W (String a s)) eqn:Hb.
  - by exists (String a s).
  - exists u. split; [|done].
    change (String a s = String a (drop_spaces_end W s +:+ u)). by rewrite <-Hu.
Qed.

Lemma drop_spaces_end_empty (s : string) :
  drop_spaces_end W s = "" ↔ only_spaces W s = true.
Proof.
  destruct s as [|a s]; [done|]. cbn [drop_spaces_end].
  by destruct (only_spaces W (String a s)).
Qed.

Lemma drop_spaces_end_idemp (s : string) :
  drop_spaces_end W (drop_spaces_end W s) = drop_spaces_end W s.
Proof.
  induction s as [|a s IH]; [done|].
  cbn [drop_spaces_end]. destruct (only_spaces W (String a s)) eqn:Hb; [done|].
  cbn [drop_spaces_end]. rewrite IH.
  destruct (only_spaces W (String a (drop_spaces_end W s))) eqn:Hb'; [|done].
  destruct (drop_spaces_end_split s) as (u & Hu & Hbu).
  assert (only_spaces W (String a s) = true) as Hall; [|congruence].
  rewrite Hu at 1.
  change (String a (drop_spaces_end W s +:+ u))
    with (String a (drop_spaces_end W s) +:+ u).
  by rewrite only_spaces_app.
Qed.

Lemma skip_spaces_drop_end (s : string) :
  skip_spaces W s = s →
  skip_spaces W (drop_spaces_end W s) = drop_spaces_end W s.
Proof.
  intros [->|Hr]%skip_spaces_fixed; [done|].
  apply skip_spaces_fixed.
  destruct (after_space W (drop_spaces_end W s)) as [r|] eqn:Hd; [|by right].
  destruct (drop_spaces_end_split s) as (u & Hu & _).
  apply (after_space_app _ _ u) in Hd. rewrite <-Hu in Hd. congruence.
Qed.

End white_space.

Lemma trimStart_idemp (s : string) : trimStart (trimStart s) = trimStart s.
Proof. apply skip_spaces_idemp. Qed.

Lemma trim_empty (s : string) : trim s = "" ↔ only_spaces StrWhiteSpace s = true.
Proof.
  unfold trim, trimEnd, trimStart.
  by rewrite drop_spaces_end_empty, only_spaces_skip.
Qed.

(** What [trim] returns has no white space left at either end. *)
Lemma trim_clean (s : string) :
  trimStart (trim s) = trim s ∧ trimEnd (trim s) = trim s ∧ trim (trim s) = trim s.
Proof.
  assert (trimStart (trim s) = trim s) as Hl.
  { apply skip_spaces_drop_end, skip_spaces_idemp. }
  assert (trimEnd (trim s) = trim s) as Hr by apply drop_spaces_end_idemp.
  split_and!; [done..|]. unfold trim at 1. by rewrite Hl.
Qed.

(** [trim] cuts white space at the two ends and nothing else. *)
Lemma trim_split (s : string) :
  ∃ l r, s = l +:+ trim s +:+ r
         ∧ only_spaces StrWhiteSpace l = true ∧ only_spaces StrWhiteSpace r = true.
Proof.
  destruct (skip_spaces_split StrWhiteSpace s) as (l & Hl & Hbl).
  destruct (drop_spaces_end_split StrWhiteSpace (trimStart s)) as (r & Hr & Hbr).
  exists l, r. split_and!; [|done..].
  unfold trim, trimEnd. fold (trimStart s) in Hl. by rewrite <-Hr.
Qed.

End StringFacts.

(** ** The series read by the cards and by the detail chart *)

Module SeriesProps.
Import SortSpec SortFacts SeriesSpec.

Section with_runtime.
Context `{Runtime}.

Lemma dated_keyed pts : Forall dated pts → keyed App.by_scraped_at when pts.
Proof.
  rewrite Forall_forall. intros Hd a b Ha Hb.
  destruct (Hd a Ha) as [ta Hta], (Hd b Hb) as [tb Htb].
  unfold App.by_scraped_at, time_diff, when. by rewrite Hta, Htb.
Qed.

Lemma sorted_chronological pts :
  Forall dated pts → StronglySorted chronological (Array_sort App.by_scraped_at pts).
Proof. intros Hd. by apply (Array_sort_sorted _ when), dated_keyed. Qed.


(** The percentage shown on a card. With fewer than two points the
    callback returns the literal 0 through its first guard. Otherwise let
    [pprev] and [plast] be the two chronologically latest points of the
    series, in whatever order the points arrive: when both medians are
    finite and the earlier one is above zero, the callback returns
    (last - prev) / prev * 100; in every other case it returns the literal
    0 through its guard, before the quotient is reached. The medians are
    the numbers [Number] makes of the values received. *)
Lemma price_change_of_two_latest (B : Backend) (kw : string) (ser : KeywordSeriesResponse) :
  getKeywordSeries B kw = Ok ser →
  let pts := default [] (ser_series ser) in
  ((length pts < 2)%nat →
     App.price_signal ser = Ok App.NoSignal
     ∧ App.price_change B kw = Ok (kw, 0%float))
  ∧ (∀ older pprev plast,
       pts ≡ₚ older ++ [pprev; plast] →
       Forall dated pts →
       Forall (λ o, when o < when pprev) older →
       when pprev < when plast →
       let prev := Number (pt_mediana pprev) in
       let last := Number (pt_mediana plast) in
       if Number_isFinite prev && PrimFloat.ltb 0%float prev && Number_isFinite last
       then App.price_signal ser = Ok (App.Change last prev)
            ∧ App.price_change B kw
              = Ok (kw, PrimFloat.mul (PrimFloat.div (PrimFloat.sub last prev) prev) 100%float)
       else App.price_signal ser = Ok App.NoSignal
            ∧ App.price_change B kw = Ok (kw, 0%float)).
Proof.
  intros HB pts. unfold App.price_change. rewrite HB. simpl.
  unfold App.price_signal. fold pts.
  rewrite (Array_sort_length App.by_scraped_at).
  split.
  - intros Hlen. apply Nat.ltb_lt in Hlen. by rewrite Hlen.
  - intros older pprev plast Hp Hd Hold Hlt.
    set (prev := Number (pt_mediana pprev)). set (last := Number (pt_mediana plast)).
    destruct (sorted_two_latest when (Array_sort App.by_scraped_at pts) older pprev plast)
      as [l0 Hl0]; [by apply sorted_chronological|by rewrite Array_sort_perm|done..|].
    assert (length pts = S (S (length l0))) as Hlen.
    { rewrite <-(Array_sort_length App.by_scraped_at), Hl0, length_app. simpl. lia. }
    rewrite Hl0, Hlen. simpl.
    rewrite Nat.sub_0_r.
    unfold at_index.
    rewrite (lookup_app_r l0 _ (length l0)) by lia.
    rewrite (lookup_app_r l0 _ (S (length l0))) by lia.
    rewrite Nat.sub_diag. replace (S (length l0) - length l0)%nat with 1%nat by lia.
    simpl. fold prev last. change PrimFloat.zero with 0%float.
    rewrite FloatFacts.guard_spec.
    by destruct (Number_isFinite prev && PrimFloat.ltb 0 prev && Number_isFinite last).
Qed.

(** C1. The guard of the callback tests the medians after [Number] has
    converted them, and [Number(null)] is 0, a finite number. So when the
    latest of at least two runs is an empty run, its median [null], and
    the run before it has a finite median above zero, the guard lets the
    pair through: the callback does not return its 0 sentinel for a median
    that is not a finite number; it divides, and the card shows the change
    from the earlier median down to 0. *)
Theorem price_change_takes_null_for_zero (B : Backend) (kw : string)
    (ser : KeywordSeriesResponse) (older : list SeriesPoint) (pprev plast : SeriesPoint) :
  getKeywordSeries B kw = Ok ser →
  default [] (ser_series ser) ≡ₚ older ++ [pprev; plast] →
  Forall dated (default [] (ser_series ser)) →
  Forall (λ o, when o < when pprev) older →
  when pprev < when plast →
  pt_mediana plast = JNull →
  Number_isFinite (Number (pt_mediana pprev)) = true →
  PrimFloat.ltb 0%float (Number (pt_mediana pprev)) = true →
  App.price_signal ser = Ok (App.Change 0%float (Number (pt_mediana pprev)))
  ∧ App.price_signal ser ≠ Ok App.NoSignal
  ∧ App.price_change B kw
    = Ok (kw, App.pct (App.Change 0%float (Number (pt_mediana pprev)))).
Proof.
  intros HB Hp Hd Hold Hlt Hnull Hfin Hpos.
  destruct (price_change_of_two_latest B kw ser HB) as [_ Htwo].
  specialize (Htwo older pprev plast Hp Hd Hold Hlt). cbv zeta in Htwo.
  rewrite Hnull, Hfin, Hpos in Htwo. simpl in Htwo.
  destruct Htwo as [Hsig Hchange]. split_and!.
  - exact Hsig.
  - rewrite Hsig. discriminate.
  - exact Hchange.
Qed.

End with_runtime.

#[local] Existing Instance Sample.host.


(** Medians 100 then 110 give +10; a single run, and an earlier median of
    zero, give the literal 0. *)
Lemma price_change_of_two_latest_witness :
  App.price_change Sample.server "A" = Ok ("A", 10%float)
  ∧ App.price_signal Sample.series_B = Ok App.NoSignal
  ∧ App.price_change Sample.server "B" = Ok ("B", 0%float)
  ∧ App.price_signal Sample.series_Z = Ok App.NoSignal
  ∧ App.price_change Sample.server "Z" = Ok ("Z", 0%float).
Proof.
  destruct (price_change_of_two_latest Sample.server "A" Sample.series_A eq_refl) as [_ HA].
  destruct (price_change_of_two_latest Sample.server "B" Sample.series_B eq_refl) as [HB _].
  destruct (price_change_of_two_latest Sample.server "Z" Sample.series_Z eq_refl) as [_ HZ].
  specialize (HA [] (Sample.point Sample.t1 100) (Sample.point Sample.t2 110)).
  specialize (HZ [] (Sample.point Sample.t1 0) (Sample.point Sample.t2 50)).
  split_and!.
  - refine (proj2 (HA _ _ _ _)).
    + apply perm_swap.
    + repeat constructor; eexists; reflexivity.
    + constructor.
    + vm_compute. reflexivity.
  - apply HB. simpl. lia.
  - apply HB. simpl. lia.
  - refine (proj1 (HZ _ _ _ _)).
    + reflexivity.
    + repeat constructor; eexists; reflexivity.
    + constructor.
    + vm_compute. reflexivity.
  - refine (proj2 (HZ _ _ _ _)).
    + reflexivity.
    + repeat constructor; eexists; reflexivity.
    + constructor.
    + vm_compute. reflexivity.
Defined.

(** Medians 100 then [null]: the card of E shows -100 %, the red badge
    of a price that fell to nothing. *)
Lemma price_change_takes_null_for_zero_witness :
  App.price_signal Fixtures.series_E = Ok (App.Change 0%float 100%float)
  ∧ App.price_change Fixtures.server_E "E" = Ok ("E", (-100)%float)
  ∧ RecentSearchCard.ArrowIcon
      (RecentSearchCard.badge_of (App.pct (App.Change 0%float 100%float)))
    = RecentSearchCard.TrendingDown.
Proof.
  destruct (price_change_takes_null_for_zero Fixtures.server_E "E" Fixtures.series_E []
              (Sample.point Sample.t1 100)
              {| pt_scraped_at := Sample.t2; pt_media := JNull; pt_mediana := JNull |})
    as (Hsig & _ & Hchange).
  - reflexivity.
  - reflexivity.
  - repeat constructor; eexists; reflexivity.
  - constructor.
  - vm_compute. reflexivity.
  - reflexivity.
  - vm_compute. reflexivity.
  - vm_compute. reflexivity.
  - split_and!; [exact Hsig|exact Hchange|reflexivity].
Defined.

End SeriesProps.

(** ** The API client *)

Module ApiProps.

Section with_runtime.
Context `{Runtime}.

(** Whatever the body of a failed response parses to, the error that
    leaves [apiJson] is the one thrown by the [catch] block. *)
Lemma apiJson_failure_is_raw_body (res : Response) :
  ok res = false →
  apiJson (Ok res)
  = Throw (Error (JStr (or_else (default "" (body res)) (http_status res)))).
Proof.
  intros Hok. unfold apiJson. simpl. rewrite Hok. simpl.
  unfold parse. by destruct (JSON_parse _).
Qed.

(** A successful response without a body resolves to the empty object. *)
Lemma apiJson_empty_success (res : Response) :
  ok res = true →
  default "" (body res) = "" →
  apiJson (Ok res) = Ok (JObj []).
Proof.
  intros Hok Hbody. unfold apiJson. simpl. by rewrite Hok, Hbody.
Qed.

(** C9. [listKeywords] settles to a list for every value [apiJson]
    resolves to, and rejects only when [apiJson] does: an array is
    returned as it is, an object with an array under [keywords] gives that
    array, and every other value (null, a number, a string, a boolean, an
    object without such a property) gives the empty list. *)
Theorem listKeywords_by_shape (fetched : result Response) :
  listKeywords fetched
  = match apiJson fetched with
    | Ok (JArr items) => Ok items
    | Ok (JObj props) =>
        match assoc "keywords" props with
        | Some (JArr items) => Ok items
        | _ => Ok []
        end
    | Ok _ => Ok []
    | Throw e => Throw e
    end.
Proof.
  unfold listKeywords. destruct (apiJson fetched) as [r|e]; simpl; [|done].
  destruct r as [| |b|x|s|items|props]; simpl; try done.
  - by rewrite andb_false_r.
  - by rewrite andb_false_r.
  - by rewrite andb_false_r.
  - destruct (assoc "keywords" props) as [[]|]; done.
Qed.

End with_runtime.

#[local] Existing Instance Sample.host.

(** C4, the failing input. A 404 whose body is the documented envelope
    [{"error":{"message":"Keyword not found"}}]: the body parses, the
    message is found in it, and yet the error that reaches the caller
    carries the raw body text and not the message. *)
Lemma apiJson_drops_error_message :
  let res := {| status := 404; body := Some Sample.not_found_text |} in
  JSON_parse Sample.not_found_text = Some Sample.not_found_json
  ∧ get_opt (get_opt Sample.not_found_json "error") "message" = JStr "Keyword not found"
  ∧ apiJson (Ok res) = Throw (Error (JStr Sample.not_found_text))
  ∧ apiJson (Ok res) ≠ Throw (Error (JStr "Keyword not found")).
Proof.
  split_and!; [reflexivity..|].
  rewrite apiJson_failure_is_raw_body by reflexivity. vm_compute. discriminate.
Qed.

Example apiJson_no_content :
  apiJson (Ok {| status := 204; body := Some "" |}) = Ok (JObj []).
Proof. by apply apiJson_empty_success. Qed.

Example listKeywords_wrapped :
  keywords_of (JObj [("keywords", JArr [JStr "ps5"; JStr "iphone 14 pro"])])
  = [JStr "ps5"; JStr "iphone 14 pro"].
Proof. reflexivity. Qed.

Example listKeywords_unexpected :
  keywords_of <$> [JNull; JNum 3; JStr "oops"; JBool true; JObj [("keywords", JStr "ps5")]]
  = [[]; []; []; []; []].
Proof. reflexivity. Qed.

End ApiProps.

(** ** The dashboard loader *)

Module DashboardProps.
Import App DashboardSpec.

Lemma stats_asked_keywords l : stats_asked (GET_keywords :: l) = stats_asked l.
Proof. done. Qed.

Lemma series_asked_keywords l : series_asked (GET_keywords :: l) = series_asked l.
Proof. done. Qed.

Lemma stats_asked_app a b : stats_asked (a ++ b) = stats_asked a ++ stats_asked b.
Proof. apply omap_app. Qed.

Lemma series_asked_app a b : series_asked (a ++ b) = series_asked a ++ series_asked b.
Proof. apply omap_app. Qed.

Lemma stats_asked_stats kws : stats_asked (GET_stats <$> kws) = kws.
Proof. induction kws; simpl; [done|]. unfold stats_asked in *. simpl. by f_equal. Qed.

Lemma stats_asked_series kws : stats_asked (GET_series <$> kws) = [].
Proof. by induction kws. Qed.

Lemma series_asked_series kws : series_asked (GET_series <$> kws) = kws.
Proof. induction kws; simpl; [done|]. unfold series_asked in *. simpl. by f_equal. Qed.

Lemma series_asked_stats kws : series_asked (GET_stats <$> kws) = [].
Proof. by induction kws. Qed.

(** [mapM] over [result]: every element succeeded, in order. *)
Lemma mapM_Ok {A B} (f : A → result B) (l : list A) (k : list B) :
  mapM f l = Ok k → Forall2 (λ a b, f a = Ok b) l k.
Proof.
  revert k. induction l as [|a l IH]; intros k; simpl.
  - intros [= <-]. constructor.
  - destruct (f a) as [b|e] eqn:Hb; simpl; [|done].
    destruct (mapM f l) as [k'|e]; simpl; [|done].
    intros [= <-]. constructor; [done|]. by apply IH.
Qed.

#[local] Arguments stats_asked : simpl never.
#[local] Arguments series_asked : simpl never.

Section with_runtime.
Context `{Runtime}.

Lemma row_of_stats_keyword s r : row_of_stats s = Ok r → keyword r = ks_keyword s.
Proof.
  unfold row_of_stats.
  destruct (ks_stats s); simpl; [|done].
  destruct (ks_price_ranges s) as [pr|]; simpl; [|done].
  destruct (pr_normal pr); simpl; [|done].
  by intros [= <-].
Qed.

(** The rows of the table answer the keywords that were asked, one for
    one, when the server echoes the keyword it was asked about. *)
Lemma rows_echo (B : Backend) (asked : list jsval) (rows : list ComparisonRow) :
  (∀ kw s, getKeywordStats B kw = Ok s → JStr (ks_keyword s) = kw) →
  mapM (getKeywordStats B) asked ≫= mapM row_of_stats = Ok rows →
  JStr ∘ keyword <$> rows = asked.
Proof.
  intros Hecho.
  destruct (mapM (getKeywordStats B) asked) as [stats|e] eqn:Hstats; simpl; [|done].
  intros Hrows. apply mapM_Ok in Hstats, Hrows.
  revert rows Hrows.
  induction Hstats as [|kw s asked stats Hs _ IH]; intros rows Hrows; inv Hrows; [done|].
  simpl. f_equal; [|by apply IH].
  erewrite row_of_stats_keyword by done. by apply Hecho.
Qed.

(** C8. Whatever list [listKeywords] returns, [loadDashboard] asks for the
    keyword list once, with no limit in the request, then for the latest
    stats of the first 25 keywords and of no other, then for the series of
    the keywords of the first four table rows; on a server that echoes the
    keyword these are the first four keywords of the list (or none, when a
    stats request failed). *)
Theorem dashboard_truncates_before_fetching (B : Backend) (st : State) (kws : list jsval) :
  listKeywords (keywords_response B) = Ok kws →
  let sent := (loadDashboard B st).1 in
  sent = GET_keywords :: (GET_stats <$> stats_asked sent) ++ (GET_series <$> series_asked sent)
  ∧ stats_asked sent = take 25 kws
  ∧ (length (stats_asked sent) ≤ 25)%nat
  ∧ (length (series_asked sent) ≤ 4)%nat
  ∧ ((∀ kw s, getKeywordStats B kw = Ok s → JStr (ks_keyword s) = kw) →
       JStr <$> series_asked sent = take 4 kws ∨ series_asked sent = []).
Proof.
  intros Hkws. cbv zeta. unfold loadDashboard. rewrite Hkws.
  destruct kws as [|kw kws'] eqn:Hk; [simpl; split_and!; auto with lia|].
  rewrite <-Hk. assert ((length kws =? 0)%nat = false) as -> by (by rewrite Hk).
  unfold slice0. clear Hkws Hk.
  destruct (mapM (getKeywordStats B) (take 25 kws) ≫= mapM row_of_stats)
    as [mapped|e] eqn:Hmapped; simpl.
  - rewrite stats_asked_keywords, series_asked_keywords.
    rewrite stats_asked_app, series_asked_app, stats_asked_stats, stats_asked_series,
      series_asked_stats, series_asked_series, app_nil_r. simpl.
    split_and!; [done|done| | |].
    + rewrite length_take. lia.
    + rewrite length_fmap, length_take. lia.
    + intros Hecho. left. apply (rows_echo B) in Hmapped; [|done].
      rewrite <-list_fmap_compose, fmap_take, Hmapped, take_take. f_equal.
  - rewrite stats_asked_keywords, series_asked_keywords.
    rewrite stats_asked_stats, series_asked_stats, app_nil_r.
    split_and!; [done|done| |simpl; lia|by right].
    rewrite length_take. lia.
Qed.

End with_runtime.

#[local] Existing Instance Sample.host.

(** A server with thirty keywords is asked for the stats of the first
    twenty-five and for the series of the first four. *)
Lemma dashboard_truncates_before_fetching_witness :
  let sent := (loadDashboard Sample.server Sample.idle).1 in
  stats_asked sent = take 25 Sample.all_keywords
  ∧ (length (series_asked sent) ≤ 4)%nat
  ∧ series_asked sent = ["k0"; "k1"; "k2"; "k3"].
Proof.
  intros sent.
  destruct (dashboard_truncates_before_fetching Sample.server Sample.idle Sample.all_keywords)
    as (_ & Hstats & _ & Hfour & _); [reflexivity|].
  split_and!; [exact Hstats|exact Hfour|reflexivity].
Defined.

(** C3, the failing input: the latest run of keyword E retained no
    listing. With the band absent, building the table row throws and the
    whole dashboard ends in its error state, the row of keyword A
    included; with the band present and its bounds null, the row carries
    the range 0 to 0 and the table cannot print its null quartiles. The
    detail panel shows the dash for the same two responses. *)
Lemma dashboard_mishandles_empty_run :
  row_of_stats Sample.empty_run = Throw TypeError
  ∧ error (loadDashboard Sample.server_AE Sample.idle).2 = Some TypeError
  ∧ tableRows (loadDashboard Sample.server_AE Sample.idle).2 = []
  ∧ normalRange <$> row_of_stats Sample.empty_run_null_bounds
    = Ok [Num 0; Lit "€ - "; Num 0; Lit "€"]
  ∧ row_of_stats Sample.empty_run_null_bounds ≫= ProductComparisonTable.render_row
    = Throw TypeError
  ∧ Detail.normal_range_cell (Some Sample.empty_run) = [Lit "—"]
  ∧ Detail.normal_range_cell (Some Sample.empty_run_null_bounds) = [Lit "—"].
Proof. split_and!; reflexivity. Qed.

Example dashboard_range_with_data :
  normalRange <$> row_of_stats (Sample.stats_of "iphone 14 pro" 320 400)
  = Ok [Num 320; Lit "€ - "; Num 400; Lit "€"].
Proof. reflexivity. Qed.

End DashboardProps.

(** ** The merged comparison table *)

Module CompareProps.
Import Compare SortSpec SortFacts CompareSpec.

Lemma last_median_snoc ps k p kw ts :
  last_median (ps ++ [(k, p)]) kw ts
  = if bool_decide (k = kw ∧ pt_scraped_at p = ts) then Some (pt_mediana p)
    else last_median ps kw ts.
Proof.
  induction ps as [|[k' p'] ps IH]; simpl.
  - done.
  - rewrite IH. case_bool_decide; [done|]. done.
Qed.

Lemma last_median_Some ps kw ts v :
  last_median ps kw ts = Some v →
  ∃ p, (kw, p) ∈ ps ∧ pt_scraped_at p = ts ∧ pt_mediana p = v.
Proof.
  induction ps as [|[k p] ps IH]; simpl; [done|].
  destruct (last_median ps kw ts) as [w|].
  - intros [= <-]. destruct IH as (p' & ? & ? & ?); [done|].
    exists p'. split_and!; [by right|done..].
  - case_bool_decide as Hk; [|done]. destruct Hk as [-> <-].
    intros [= <-]. exists p. split_and!; [by left|done..].
Qed.

Lemma last_median_None ps kw ts :
  last_median ps kw ts = None ↔ ∀ p, (kw, p) ∈ ps → pt_scraped_at p ≠ ts.
Proof.
  induction ps as [|[k p] ps IH]; simpl.
  - split; [|done]. intros _ p Hp. inv Hp.
  - destruct (last_median ps kw ts) as [w|] eqn:Hw.
    + split; [done|]. intros Hall.
      apply last_median_Some in Hw as (p' & Hin & Hts & _).
      destruct (Hall p'); [by right|done].
    + case_bool_decide as Hk.
      * split; [done|]. destruct Hk as [-> <-]. intros Hall. destruct (Hall p); [by left|done].
      * split; [|done]. intros _ p' Hp'. apply elem_of_cons in Hp' as [[= -> ->]|Hp'].
        -- intros Hts. by destruct Hk.
        -- by apply IH.
Qed.

(** *** The insertion-ordered map *)

Lemma Map_has_spec ts (m : table) : Map_has ts m = bool_decide (ts ∈ m.*1).
Proof.
  induction m as [|[k r] m IH]; simpl; [done|].
  rewrite IH. destruct (String.eqb_spec ts k) as [->|Hne]; simpl.
  - symmetry. apply bool_decide_eq_true. by left.
  - apply bool_decide_ext. rewrite elem_of_cons. split; [by right|]. by intros [?|?].
Qed.

Lemma Map_set_fresh ts r (m : table) : ts ∉ m.*1 → Map_set ts r m = m ++ [(ts, r)].
Proof.
  induction m as [|[k r'] m IH]; simpl; [done|].
  rewrite not_elem_of_cons. intros [Hne Hnin].
  destruct (String.eqb_spec ts k); [done|]. by rewrite IH.
Qed.

Lemma Map_assign_keys ts kw v (m : table) : (Map_assign ts kw v m).*1 = m.*1.
Proof.
  induction m as [|[k r] m IH]; simpl; [done|].
  destruct (String.eqb ts k); simpl; [done|]. by f_equal.
Qed.

Lemma Map_get_assign ts' ts kw v (m : table) :
  Map_get ts' (Map_assign ts kw v m)
  = if decide (ts' = ts) then <[kw := v]> <$> Map_get ts m else Map_get ts' m.
Proof.
  induction m as [|[k r] m IH]; simpl; [by case_decide|].
  destruct (String.eqb_spec ts k) as [->|Hne]; simpl.
  - destruct (String.eqb_spec ts' k) as [->|Hne']; simpl.
    + by rewrite decide_True.
    + by rewrite decide_False.
  - destruct (String.eqb_spec ts' k) as [->|Hne']; simpl.
    + by rewrite decide_False.
    + done.
Qed.

Lemma Map_get_snoc ts' ts r (m : table) :
  Map_get ts' (m ++ [(ts, r)])
  = match Map_get ts' m with
    | Some x => Some x
    | None => if decide (ts' = ts) then Some r else None
    end.
Proof.
  induction m as [|[k r'] m IH]; simpl.
  - destruct (String.eqb_spec ts' ts); by case_decide.
  - by destruct (String.eqb ts' k).
Qed.

Lemma Map_get_None ts (m : table) : Map_get ts m = None ↔ ts ∉ m.*1.
Proof.
  induction m as [|[k r] m IH]; simpl.
  - split; [|done]. intros _ Hin. inv Hin.
  - rewrite not_elem_of_cons. destruct (String.eqb_spec ts k); naive_solver.
Qed.

Lemma Map_get_elem_of ts r (m : table) :
  NoDup m.*1 → (ts, r) ∈ m ↔ Map_get ts m = Some r.
Proof.
  induction m as [|[k r'] m IH]; simpl.
  - intros _. split; [|done]. intros Hin. inv Hin.
  - rewrite NoDup_cons. intros [Hk Hnd]. rewrite elem_of_cons.
    destruct (String.eqb_spec ts k) as [->|Hne].
    + split; [|naive_solver]. intros [?|Hin]; [naive_solver|].
      destruct Hk. apply list_elem_of_fmap. by exists (k, r).
    + rewrite <-IH by done. naive_solver.
Qed.

Section with_runtime.
Context `{Runtime}.

Lemma add_series_visits byTs s :
  add_series byTs s = foldl step byTs ((λ p, (ser_keyword s, p)) <$> default [] (ser_series s)).
Proof.
  unfold add_series. generalize (default [] (ser_series s)) as pts.
  intros pts. revert byTs. induction pts as [|p pts IH]; intros byTs; simpl; [done|].
  by rewrite IH.
Qed.

Lemma collect_visits seriesList : collect seriesList = foldl step [] (visited seriesList).
Proof.
  unfold collect, visited. generalize ([] : table) as byTs.
  induction seriesList as [|s sl IH]; intros byTs; simpl; [done|].
  by rewrite foldl_app, IH, add_series_visits.
Qed.

Lemma built_step ps byTs k p : built ps byTs → built (ps ++ [(k, p)]) (step byTs (k, p)).
Proof.
  intros [Hnd Hkeys Hcells]. unfold step, add_point. simpl.
  rewrite Map_has_spec. case_bool_decide as Hin.
  - (* the timestamp already has a row *)
    split.
    + by rewrite Map_assign_keys.
    + intros ts. rewrite Map_assign_keys, fmap_app, elem_of_app, <-Hkeys. simpl.
      rewrite list_elem_of_singleton. split; [by left|]. by intros [?| ->].
    + intros ts r kw. rewrite Map_get_assign, last_median_snoc. case_decide as Hts.
      * subst ts. destruct (Map_get (pt_scraped_at p) byTs) as [r0|] eqn:Hr0; [|done].
        intros [= <-] Hkw. case_bool_decide as Hk.
        -- destruct Hk as [-> _]. by rewrite lookup_insert_eq.
        -- rewrite lookup_insert_ne by (intros ->; by destruct Hk). by apply Hcells.
      * intros Hr Hkw. rewrite bool_decide_eq_false_2 by (by intros [_ ?]).
        by apply Hcells.
  - (* a new row goes last *)
    rewrite Map_set_fresh by done.
    split.
    + rewrite Map_assign_keys, fmap_app. simpl. apply NoDup_app. split_and!; [done| |].
      * intros ts Hts ->%list_elem_of_singleton. done.
      * apply NoDup_singleton.
    + intros ts. rewrite Map_assign_keys, !fmap_app, !elem_of_app, <-Hkeys. done.
    + intros ts r kw. rewrite Map_get_assign, last_median_snoc. case_decide as Hts.
      * subst ts. rewrite Map_get_snoc.
        rewrite (proj2 (Map_get_None _ _) Hin), decide_True by done. simpl.
        intros [= <-] Hkw. case_bool_decide as Hk.
        -- destruct Hk as [-> _]. by rewrite lookup_insert_eq.
        -- rewrite lookup_insert_ne by (intros ->; by destruct Hk).
           rewrite lookup_singleton_ne by done. symmetry.
           apply last_median_None. intros p' Hp' Heq. apply Hin, Hkeys.
           apply list_elem_of_fmap. by exists (kw, p').
      * rewrite Map_get_snoc, decide_False by done.
        destruct (Map_get ts byTs) as [r0|] eqn:Hr0; [|done].
        intros [= <-] Hkw. rewrite bool_decide_eq_false_2 by (by intros [_ ?]).
        by apply Hcells.
Qed.

Lemma built_foldl ps : built ps (foldl step [] ps).
Proof.
  induction ps as [|[k p] ps IH] using rev_ind.
  - split; simpl; [constructor|done|done].
  - rewrite foldl_app. simpl. by apply built_step.
Qed.

Lemma collect_built seriesList : built (visited seriesList) (collect seriesList).
Proof. rewrite collect_visits. apply built_foldl. Qed.

Lemma elem_of_visited seriesList kw p :
  (kw, p) ∈ visited seriesList
  ↔ ∃ s, s ∈ seriesList ∧ ser_keyword s = kw ∧ p ∈ default [] (ser_series s).
Proof.
  unfold visited. rewrite list_elem_of_bind. split.
  - intros (s & Hp & Hs). apply list_elem_of_fmap in Hp as (p' & [= -> ->] & Hp').
    by exists s.
  - intros (s & Hs & <- & Hp). exists s. split; [|done].
    apply list_elem_of_fmap. by exists p.
Qed.





End with_runtime.

#[local] Existing Instance Sample.host.

(** Keyword A scraped at [t1] and [t2], keyword B at [t1] only: two rows,
    the first with both medians, the second with the median of A and no
    property for B. *)
Example compare_A_B :
  map_to_list <$> merged [Sample.series_A; Sample.series_B]
  = [[("A", JNum 100); ("B", JNum 50); ("date", JStr "01/01/2024")];
     [("A", JNum 110); ("date", JStr "02/01/2024")]].
Proof. vm_compute. reflexivity. Qed.



End CompareProps.

(** ** The price bounds of the search form *)

Module SearchBarProps.
Import SearchBar SearchBarSpec.

Lemma trimStart_blank s : blank s = true → trimStart s = "".
Proof. apply StringFacts.skip_spaces_blank. Qed.

Lemma trim_blank s : blank s = true → trim s = "".
Proof. intros Hs. unfold trim. rewrite (trimStart_blank s) by done. reflexivity. Qed.

Lemma finite_not_nan_nor_infinite (x : float) :
  Number_isFinite x = true → PrimFloat.is_nan x = false ∧ PrimFloat.is_infinity x = false.
Proof.
  unfold Number_isFinite, PrimFloat.is_finite.
  intros Hx%negb_true_iff. by apply orb_false_iff.
Qed.

#[local] Arguments scrape_body : simpl never.

Section with_runtime.
Context `{Runtime}.

Lemma toNumOrUndef_Some v x :
  toNumOrUndef v = Some x → x = StringToNumber (trim v) ∧ Number_isFinite x = true.
Proof.
  unfold toNumOrUndef. destruct (String.eqb (trim v) ""); [done|].
  destruct (Number_isFinite (StringToNumber (trim v))) eqn:Hfin; [|done].
  by intros [= <-].
Qed.

Lemma toNumOrUndef_blank v : blank v = true → toNumOrUndef v = None.
Proof. intros Hv. unfold toNumOrUndef. by rewrite trim_blank. Qed.

Lemma toNumOrUndef_not_finite v :
  Number_isFinite (StringToNumber (trim v)) = false → toNumOrUndef v = None.
Proof.
  intros Hv. unfold toNumOrUndef. rewrite Hv. by destruct (String.eqb (trim v) "").
Qed.

(** What [scrape_body] writes under the two bounds. *)
Lemma scrape_body_min_price o :
  assoc "min_price" (scrape_body (Some o)) = json_number <$> min_price o.
Proof.
  unfold scrape_body.
  by destruct (min_price o), (max_price o), (filter_mode o), (exclude_bad_text o).
Qed.

Lemma scrape_body_max_price o :
  assoc "max_price" (scrape_body (Some o)) = json_number <$> max_price o.
Proof.
  unfold scrape_body.
  by destruct (min_price o), (max_price o), (filter_mode o), (exclude_bad_text o).
Qed.

Lemma bound_sent typed :
  match json_number <$> toNumOrUndef typed with
  | None => True
  | Some (JNum x) =>
      x = StringToNumber (trim typed)
      ∧ PrimFloat.is_nan x = false ∧ PrimFloat.is_infinity x = false
  | Some _ => False
  end.
Proof.
  destruct (toNumOrUndef typed) as [x|] eqn:Hx; simpl; [|done].
  apply toNumOrUndef_Some in Hx as [Hx Hfin]. unfold json_number. rewrite Hfin.
  split; [done|]. by apply finite_not_nan_nor_infinite.
Qed.

(** C10. In the scrape request of a submitted form each of the two price
    bounds is either left out or a number that is neither NaN nor
    infinite, namely the numeric value of the trimmed text; a text that is
    empty or white space only, and a text whose value is not a finite
    number, leave the bound out. *)
Theorem price_bounds_finite_or_omitted (f : Form) (kw : string) (sent : list (string * jsval)) :
  submitted f = Some (POST_scrape kw sent) →
  ∀ field typed,
    (field, typed) ∈ [("min_price", minPrice f); ("max_price", maxPrice f)] →
    match assoc field sent with
    | None => True
    | Some (JNum x) =>
        x = StringToNumber (trim typed)
        ∧ PrimFloat.is_nan x = false ∧ PrimFloat.is_infinity x = false
    | Some _ => False
    end
    ∧ (blank typed = true → assoc field sent = None)
    ∧ (Number_isFinite (StringToNumber (trim typed)) = false → assoc field sent = None).
Proof.
  unfold submitted.
  destruct (handleSearch f) as [[kw' opts]|] eqn:Hh; simpl; [|done].
  intros [= <- <-] field typed Hin.
  assert (min_price opts = toNumOrUndef (minPrice f)
          ∧ max_price opts = toNumOrUndef (maxPrice f)) as [Hmin Hmax].
  { unfold handleSearch in Hh.
    destruct (String.eqb (trim (searchTerm f)) ""); [done|]. by injection Hh as <- <-. }
  apply elem_of_cons in Hin as [[= -> ->]|Hin];
    [|apply list_elem_of_singleton in Hin as [= -> ->]].
  - rewrite scrape_body_min_price, Hmin. split_and!.
    + apply bound_sent.
    + intros Hb. by rewrite toNumOrUndef_blank.
    + intros Hn. by rewrite toNumOrUndef_not_finite.
  - rewrite scrape_body_max_price, Hmax. split_and!.
    + apply bound_sent.
    + intros Hb. by rewrite toNumOrUndef_blank.
    + intros Hn. by rewrite toNumOrUndef_not_finite.
Qed.

End with_runtime.

#[local] Existing Instance Sample.host.

(** A lower bound of 100 is sent as the number 100; an upper bound typed
    as a number too large for a double is left out. *)
Lemma price_bounds_finite_or_omitted_witness :
  submitted (Sample.typed " 100 " "1e999")
  = Some (POST_scrape "iphone 14 pro"
            [("min_price", JNum 100); ("filter_mode", JStr "soft");
             ("exclude_bad_text", JBool true)])
  ∧ assoc "max_price"
      [("min_price", JNum 100); ("filter_mode", JStr "soft");
       ("exclude_bad_text", JBool true)] = None.
Proof.
  split; [reflexivity|].
  destruct (price_bounds_finite_or_omitted (Sample.typed " 100 " "1e999") _ _ eq_refl
              "max_price" "1e999") as (_ & _ & Hout).
  - right. left.
  - exact (Hout eq_refl).
Defined.

Example bounds_left_out :
  scrape_body (snd <$> handleSearch (Sample.typed "" "   "))
  = [("filter_mode", JStr "soft"); ("exclude_bad_text", JBool true)].
Proof. reflexivity. Qed.

Example nothing_sent_without_keyword :
  submitted {| searchTerm := "  "; minPrice := "100"; maxPrice := "";
               filterMode := soft; excludeBadText := true |} = None.
Proof. reflexivity. Qed.

End SearchBarProps.

(** ** The scheduled tasks *)

Module ScheduleProps.
Import Schtasks ScheduleSpec.

Lemma task_names_differ p : taskDaily p ≠ taskLogon p.
Proof.
  unfold taskDaily, taskLogon. intros Heq.
  apply (inj (String.app (TaskBase p))) in Heq. discriminate.
Qed.

(** When an install succeeds, and what it leaves. *)
Lemma installed_iff h p tasks tasks' :
  installed (install h p tasks) = Some tasks'
  ↔ Time p ≠ ""
    ∧ Test_Path h (runner (command h p)) = true
    ∧ accepts h (taskDaily p) (daily_task h p) = true
    ∧ accepts h (taskLogon p) (logon_task h p) = true
    ∧ tasks' = <[taskLogon p := logon_task h p]> (<[taskDaily p := daily_task h p]> tasks).
Proof.
  unfold install, create_force, query.
  fold (command h p). change (Join_Path _ _) with (runner (command h p)).
  fold (daily_task h p) (logon_task h p).
  destruct (String.eqb_spec (Time p) ""); [naive_solver|].
  destruct (Test_Path h (runner (command h p))); simpl; [|naive_solver].
  destruct (accepts h (taskDaily p) (daily_task h p)) eqn:Hd;
    destruct (accepts h (taskLogon p) (logon_task h p)) eqn:Hl; simpl;
    [|naive_solver..].
  rewrite lookup_insert_eq, lookup_insert_ne by (apply not_eq_sym, task_names_differ).
  rewrite lookup_insert_eq. simpl. naive_solver.
Qed.

(** C7. After a successful install both tasks exist: the daily one starts
    at the time given, the other at every logon, and both run the same
    command line, the runner script of this project, so that firing either
    launches the same daily scrape. *)
Theorem install_creates_both_triggers (h : Host) (p : Params) (tasks tasks' : gmap string task) :
  installed (install h p tasks) = Some tasks' →
  ∃ daily logon,
    tasks' !! taskDaily p = Some daily
    ∧ tasks' !! taskLogon p = Some logon
    ∧ sc daily = DAILY (Time p)
    ∧ sc logon = ONLOGON
    ∧ tr daily = tr logon
    ∧ taskCmd (tr daily) = taskCmd (tr logon)
    ∧ runner (tr daily)
      = Join_Path (project_root h (ProjectRoot p)) "scripts\run_daily_scrape.ps1"
    ∧ Test_Path h (runner (tr daily)) = true
    ∧ fire h daily = fire h logon
    ∧ fire h daily = run_daily_scrape h (Mode p) (project_root h (ProjectRoot p)).
Proof.
  intros (_ & Hrunner & _ & _ & ->)%installed_iff.
  exists (daily_task h p), (logon_task h p). split_and!; try done.
  - rewrite lookup_insert_ne by (apply not_eq_sym, task_names_differ).
    apply lookup_insert_eq.
  - apply lookup_insert_eq.
Qed.

(** C6. Two successful installs in a row under the same task base, the
    second possibly at another time: the scheduler ends with the state a
    single install of the second would have produced, so nothing has to be
    removed in between; the daily task starts at the second time; the two
    task names are the only ones added, each held once, so a scheduler
    that had neither holds exactly two more tasks than before. *)
Theorem reinstall_replaces_in_place (h : Host) (p1 p2 : Params)
    (tasks once twice : gmap string task) :
  TaskBase p1 = TaskBase p2 →
  installed (install h p1 tasks) = Some once →
  installed (install h p2 once) = Some twice →
  installed (install h p2 tasks) = Some twice
  ∧ twice !! taskDaily p2 = Some (daily_task h p2)
  ∧ twice !! taskLogon p2 = Some (logon_task h p2)
  ∧ dom twice = {[taskDaily p2; taskLogon p2]} ∪ dom tasks
  ∧ (taskDaily p2 ∉ dom tasks → taskLogon p2 ∉ dom tasks → size twice = (2 + size tasks)%nat)
  ∧ (p1 = p2 → twice = once).
Proof.
  intros Hbase (_ & _ & _ & _ & ->)%installed_iff (Ht & Hr & Hd & Hl & ->)%installed_iff.
  assert (taskDaily p1 = taskDaily p2) as -> by (unfold taskDaily; by rewrite Hbase).
  assert (taskLogon p1 = taskLogon p2) as -> by (unfold taskLogon; by rewrite Hbase).
  pose proof (task_names_differ p2) as Hne.
  assert (<[taskLogon p2:=logon_task h p2]>
            (<[taskDaily p2:=daily_task h p2]>
               (<[taskLogon p2:=logon_task h p1]> (<[taskDaily p2:=daily_task h p1]> tasks)))
          = <[taskLogon p2:=logon_task h p2]> (<[taskDaily p2:=daily_task h p2]> tasks))
    as Hsame.
  { apply map_eq. intros tn.
    destruct (decide (tn = taskLogon p2)) as [->|?]; [by rewrite !lookup_insert_eq|].
    rewrite !(lookup_insert_ne _ (taskLogon p2)) by done.
    destruct (decide (tn = taskDaily p2)) as [->|?]; [by rewrite !lookup_insert_eq|].
    by rewrite !lookup_insert_ne by done. }
  rewrite Hsame. split_and!.
  - by apply installed_iff.
  - rewrite lookup_insert_ne by done. apply lookup_insert_eq.
  - apply lookup_insert_eq.
  - rewrite !dom_insert_L. set_solver.
  - intros Hd' Hl'. rewrite map_size_insert_None.
    + rewrite map_size_insert_None; [done|]. by apply not_elem_of_dom.
    + rewrite lookup_insert_ne by done. by apply not_elem_of_dom.
  - by intros ->.
Qed.

(** On the sample machine: an install at 09:30 on an empty scheduler. *)
Lemma install_creates_both_triggers_witness :
  let p := Sample.at_time "09:30" in
  let tasks' := <[taskLogon p := logon_task Sample.pc p]>
                  (<[taskDaily p := daily_task Sample.pc p]> ∅) in
  installed (install Sample.pc p ∅) = Some tasks'
  ∧ ∃ daily logon,
      tasks' !! taskDaily p = Some daily
      ∧ tasks' !! taskLogon p = Some logon
      ∧ sc daily = DAILY (Time p)
      ∧ sc logon = ONLOGON
      ∧ tr daily = tr logon
      ∧ taskCmd (tr daily) = taskCmd (tr logon)
      ∧ runner (tr daily)
        = Join_Path (project_root Sample.pc (ProjectRoot p)) "scripts\run_daily_scrape.ps1"
      ∧ Test_Path Sample.pc (runner (tr daily)) = true
      ∧ fire Sample.pc daily = fire Sample.pc logon
      ∧ fire Sample.pc daily
        = run_daily_scrape Sample.pc (Mode p) (project_root Sample.pc (ProjectRoot p)).
Proof.
  intros p tasks'.
  assert (installed (install Sample.pc p ∅) = Some tasks') as Hok.
  { apply installed_iff. split_and!; first [reflexivity|discriminate]. }
  split; [exact Hok|].
  exact (install_creates_both_triggers Sample.pc p ∅ tasks' Hok).
Defined.

(** An install at 09:30 followed by one at 21:15: two tasks, the daily one
    at 21:15. *)
Lemma reinstall_replaces_in_place_witness :
  let p1 := Sample.at_time "09:30" in
  let p2 := Sample.at_time "21:15" in
  let once := <[taskLogon p1 := logon_task Sample.pc p1]>
                (<[taskDaily p1 := daily_task Sample.pc p1]> ∅) in
  let twice := <[taskLogon p2 := logon_task Sample.pc p2]>
                 (<[taskDaily p2 := daily_task Sample.pc p2]> ∅) in
  installed (install Sample.pc p2 once) = Some twice
  ∧ sc <$> twice !! "Valyro - Daily Scrape (Daily)" = Some (DAILY "21:15")
  ∧ size twice = 2%nat.
Proof.
  intros p1 p2 once twice.
  assert (installed (install Sample.pc p1 ∅) = Some once) as H1.
  { apply installed_iff. split_and!; first [reflexivity|discriminate]. }
  assert (installed (install Sample.pc p2 once) = Some twice) as H2.
  { apply installed_iff. split_and!; first [reflexivity|discriminate]. }
  destruct (reinstall_replaces_in_place Sample.pc p1 p2 ∅ once twice eq_refl H1 H2)
    as (_ & Hdaily & _ & _ & Hsize & _).
  split_and!.
  - exact H2.
  - change (sc <$> twice !! taskDaily p2 = Some (DAILY "21:15")). by rewrite Hdaily.
  - apply Hsize; rewrite dom_empty_L; apply not_elem_of_empty.
Defined.

Example task_command_line :
  taskCmd (command Sample.pc (Sample.at_time "09:30"))
  = "powershell.exe -NoProfile -ExecutionPolicy Bypass -File " +:+ quote
      +:+ "C:\valyro\scripts\run_daily_scrape.ps1" +:+ quote +:+ " -Mode python -ProjectRoot "
      +:+ quote +:+ "C:\valyro" +:+ quote.
Proof. reflexivity. Qed.

(** A start time the scheduler refuses leaves the earlier daily task in
    place, and the script still runs to its end. *)
Example refused_time_changes_nothing :
  let once := <[taskLogon (Sample.at_time "09:30") := logon_task Sample.pc (Sample.at_time "09:30")]>
                (<[taskDaily (Sample.at_time "09:30") := daily_task Sample.pc (Sample.at_time "09:30")]> ∅) in
  install Sample.pc (Sample.at_time "9h30") once = Completed [1; 0; 0; 0] once.
Proof. vm_compute. reflexivity. Qed.

(** The form's default, an empty time, stops the script at the binding of
    its parameters: nothing is asked of the scheduler. *)
Example install_without_time :
  install Sample.pc (Sample.at_time "") ∅
  = Threw "Cannot bind argument to parameter 'Time' because it is an empty string.".
Proof. reflexivity. Qed.

(** The runner takes the mode in any case of letters. *)
Example runner_mode_ignores_case :
  run_daily_scrape Sample.pc "EXE" "" = run_daily_scrape Sample.pc "exe" ""
  ∧ run_daily_scrape Sample.pc "Exe" "" ≠ run_daily_scrape Sample.pc "python" "".
Proof. split; [reflexivity|]. vm_compute. discriminate. Qed.

End ScheduleProps.

(** ** Addresses *)

Module UrlProps.
Import Urls.

Lemma prefix_app p s t : String.prefix p s = true → String.prefix p (s +:+ t) = true.
Proof.
  revert p. induction s as [|b s IH]; intros [|a p]; simpl; try done.
  - by destruct t.
  - destruct (ascii_dec a b); [apply IH|done].
Qed.

Lemma is_http_app s t : is_http s = true → is_http (s +:+ t) = true.
Proof.
  unfold is_http, startsWith. intros [Hs|Hs]%orb_true_iff.
  - by rewrite (prefix_app _ _ _ Hs).
  - rewrite (prefix_app _ _ _ Hs). apply orb_true_r.
Qed.

Lemma is_http_nonempty s : is_http s = true → s ≠ "".
Proof. by intros Hs ->. Qed.

Lemma toAbsoluteUrl_http E u : is_http u = true → toAbsoluteUrl E u = u.
Proof.
  intros Hu. unfold toAbsoluteUrl. rewrite Hu. by destruct (String.eqb u "").
Qed.

Lemma toAbsoluteUrl_is_http E u :
  is_http (apiOrigin E) = true → u ≠ "" → is_http (toAbsoluteUrl E u) = true.
Proof.
  intros HE Hu. unfold toAbsoluteUrl.
  destruct (String.eqb_spec u ""); [done|].
  destruct (is_http u) eqn:Hhttp; [done|]. by apply is_http_app.
Qed.

(** X1. A path is joined to the base address with exactly one slash
    between them, whether or not the path brings its own: for a path that
    does not start with a slash, [url] gives the same address with and
    without a slash put before it. *)
Theorem url_slash_optional (E : Env) (path : string) :
  startsWith path "/" = false →
  url E ("/" +:+ path) = url E path
  ∧ url E path = BASE_URL E +:+ "/" +:+ path.
Proof.
  intros Hpath. unfold url, separator. rewrite Hpath.
  assert (startsWith ("/" +:+ path) "/" = true) as ->; [|done].
  unfold startsWith. simpl. by destruct path.
Qed.

(** X2. When the origin of the API is an http or https address,
    [toAbsoluteUrl] returns the empty text for the empty text and an http
    or https address for every other text; it leaves such addresses as
    they are, so applying it twice is the same as applying it once; and
    the [plot_url] that [compareKeywords] hands on is absent, empty or an
    http or https address, the rest of the response being untouched. *)
Theorem toAbsoluteUrl_idempotent (E : Env) (u : string) (r : CompareResponse) :
  is_http (apiOrigin E) = true →
  (toAbsoluteUrl E u = "" ↔ u = "")
  ∧ (u ≠ "" → is_http (toAbsoluteUrl E u) = true)
  ∧ (is_http u = true → toAbsoluteUrl E u = u)
  ∧ toAbsoluteUrl E (toAbsoluteUrl E u) = toAbsoluteUrl E u
  ∧ match plot_url (compareKeywords_result E r) with
    | Some v => plot_url r ≠ None ∧ (v = "" ∨ is_http v = true)
    | None => plot_url r = None
    end
  ∧ comparison (compareKeywords_result E r) = comparison r
  ∧ selected (compareKeywords_result E r) = selected r.
Proof.
  intros HE. split_and!.
  - split; [|by intros ->].
    intros Hempty. destruct (decide (u = "")) as [|Hu]; [done|].
    apply (toAbsoluteUrl_is_http E) in Hu; [|done]. by rewrite Hempty in Hu.
  - by apply toAbsoluteUrl_is_http.
  - apply toAbsoluteUrl_http.
  - destruct (decide (u = "")) as [->|Hu]; [done|].
    by apply toAbsoluteUrl_http, toAbsoluteUrl_is_http.
  - unfold compareKeywords_result. destruct (plot_url r) as [v|] eqn:Hv; [|by rewrite Hv].
    destruct (String.eqb_spec v "") as [->|Hne]; simpl.
    + rewrite Hv. split; [done|by left].
    + split; [done|]. right. by apply toAbsoluteUrl_is_http.
  - unfold compareKeywords_result. by destruct (plot_url r) as [v|]; [destruct (String.eqb v "")|].
  - unfold compareKeywords_result. by destruct (plot_url r) as [v|]; [destruct (String.eqb v "")|].
Qed.

Lemma url_slash_optional_witness :
  url Fixtures.local_page "/keywords" = url Fixtures.local_page "keywords"
  ∧ url Fixtures.local_page "keywords" = "/api/v1/keywords".
Proof. exact (url_slash_optional Fixtures.local_page "keywords" eq_refl). Defined.

Lemma toAbsoluteUrl_idempotent_witness :
  toAbsoluteUrl Fixtures.local_page "/plots/ps5.png" = "http://127.0.0.1:5000/plots/ps5.png"
  ∧ toAbsoluteUrl Fixtures.local_page (toAbsoluteUrl Fixtures.local_page "plots/ps5.png")
    = toAbsoluteUrl Fixtures.local_page "plots/ps5.png".
Proof.
  split; [reflexivity|].
  exact (proj1 (proj2 (proj2 (proj2
    (toAbsoluteUrl_idempotent Fixtures.local_page "plots/ps5.png"
       {| comparison := []; plot_url := None; selected := [] |} eq_refl))))).
Defined.

End UrlProps.

(** ** The percentages of the cards *)

Module PriceChangeProps.
Import App.

Section with_runtime.
Context `{Runtime}.

(** The callback answers under the keyword it was given. *)
Lemma price_change_key (B : Backend) (k k' : string) (v : float) :
  price_change B k = Ok (k', v) → k' = k.
Proof.
  unfold price_change. destruct (getKeywordSeries B k) as [ser|]; simpl; [|done].
  destruct (price_signal ser); simpl; [|done]. by intros [= <- _].
Qed.

Lemma patch_of_snoc (results : list (result (string * float))) (r : result (string * float)) :
  patch_of (results ++ [r])
  = match r with
    | Ok (kw, v) => <[kw := v]> (patch_of results)
    | Throw _ => patch_of results
    end.
Proof. unfold patch_of. by rewrite foldl_app. Qed.

(** The patch holds the percentage of every keyword whose callback
    fulfilled, and nothing else. *)
Lemma patch_of_lookup (B : Backend) (keywords : list string) (kw : string) :
  patch_of (price_change B <$> keywords) !! kw
  = if decide (kw ∈ keywords) then
      match price_change B kw with
      | Ok (_, v) => Some v
      | Throw _ => None
      end
    else None.
Proof.
  induction keywords as [|k keywords IH] using rev_ind.
  - by rewrite decide_False by apply not_elem_of_nil.
  - rewrite fmap_app. simpl. rewrite patch_of_snoc.
    destruct (decide (kw = k)) as [->|Hne].
    + rewrite decide_True by (apply elem_of_app; right; constructor).
      destruct (price_change B k) as [[k' v]|e] eqn:Hk.
      * apply price_change_key in Hk as Hk'. subst k'. by rewrite lookup_insert_eq.
      * rewrite IH. by case_decide.
    + assert (patch_of (price_change B <$> keywords) !! kw
              = if decide (kw ∈ keywords ++ [k]) then
                  match price_change B kw with
                  | Ok (_, v) => Some v
                  | Throw _ => None
                  end
                else None) as H'.
      { rewrite IH. apply decide_ext. rewrite elem_of_app, list_elem_of_singleton. tauto. }
      destruct (price_change B k) as [[k' v]|e] eqn:Hk; [|done].
      apply price_change_key in Hk. subst k'. by rewrite lookup_insert_ne.
Qed.



End with_runtime.

#[local] Existing Instance Sample.host.

Example price_changes_patch_sample :
  let st' := (loadPriceChangesForCards Fixtures.server_B_failing ["A"; "B"]
                Fixtures.three_rows).2 in
  priceChangeByKw st' !! "A" = Some 10%float
  ∧ priceChangeByKw st' !! "B" = Some 2.5%float
  ∧ priceChangeByKw st' !! "Z" = None.
Proof. split_and!; reflexivity. Qed.

End PriceChangeProps.

(** ** The state the dashboard loader leaves *)

Module DashboardStateProps.
Import App DashboardSpec.

#[local] Arguments take : simpl never.
#[local] Arguments slice0 : simpl never.
#[local] Arguments stats_asked : simpl never.
#[local] Arguments series_asked : simpl never.

(** [mapM] over [result] stops at a failing element. *)
Lemma mapM_Throw {A B} (f : A → result B) (l : list A) (a : A) (e : exn) :
  a ∈ l → f a = Throw e → ∃ e', mapM f l = Throw e'.
Proof.
  induction l as [|b l IH]; intros Hin Ha; [by apply elem_of_nil in Hin|].
  simpl. destruct (f b) as [y|e'] eqn:Hb; [|by exists e'].
  apply elem_of_cons in Hin as [->|Hin]; [congruence|].
  destruct (IH Hin Ha) as [e' ->]. by exists e'.
Qed.

Lemma mapM_Ok_length {A B} (f : A → result B) (l : list A) (k : list B) :
  mapM f l = Ok k → length k = length l.
Proof.
  intros Hk%DashboardProps.mapM_Ok. symmetry. by eapply Forall2_length.
Qed.

Section with_runtime.
Context `{Runtime}.

(** X3. A response outside 2xx never resolves: [apiJson] rejects with an
    error whose message is never empty, the body text when there is one
    and [HTTP <status>] when the body is empty or could not be read. *)
Theorem apiJson_failure_message (res : Response) :
  ok res = false →
  ∃ msg,
    apiJson (Ok res) = Throw (Error (JStr msg))
    ∧ msg ≠ ""
    ∧ (default "" (body res) ≠ "" → msg = default "" (body res))
    ∧ (default "" (body res) = "" → msg = "HTTP " +:+ String_of_Z (status res)).
Proof.
  intros Hok. rewrite ApiProps.apiJson_failure_is_raw_body by done.
  eexists. split; [done|]. unfold or_else, http_status.
  destruct (String.eqb_spec (default "" (body res)) "") as [Hb|Hb]; split_and!; done.
Qed.

Lemma listKeywords_without_list (res : Response) :
  ok res = true →
  default "" (body res) = ""
  ∨ (∃ r, JSON_parse (default "" (body res)) = Some r ∧ keywords_of r = []) →
  listKeywords (Ok res) = Ok [].
Proof.
  intros Hok Hbody. unfold listKeywords, apiJson. simpl. rewrite Hok. simpl.
  destruct (String.eqb_spec (default "" (body res)) "") as [Hb|Hb]; [done|].
  destruct Hbody as [?|(r & Hr & Hk)]; [done|].
  unfold parse. rewrite Hr. simpl. by rewrite Hk.
Qed.

(** X4. When [GET /keywords] succeeds without a list in it (an empty
    body, or a JSON value that is neither an array nor an object with an
    array under [keywords]), the dashboard is emptied rather than put in
    error: the table and the percentages are cleared, no error is set,
    loading ends, and no other request is sent. *)
Theorem dashboard_cleared_without_keywords (B : Backend) (st : State) (res : Response) :
  keywords_response B = Ok res →
  ok res = true →
  default "" (body res) = ""
  ∨ (∃ r, JSON_parse (default "" (body res)) = Some r ∧ keywords_of r = []) →
  loadDashboard B st
  = ([GET_keywords],
     {| loading := false; error := None; tableRows := []; priceChangeByKw := ∅ |}).
Proof.
  intros HB Hok Hbody. unfold loadDashboard.
  by rewrite HB, (listKeywords_without_list res Hok Hbody).
Qed.

(** X5. However [loadDashboard] ends, the loading flag is off afterwards;
    and whenever it ends with an error, the table rows and the
    percentages are those shown before the call and no series was
    requested. *)
Theorem dashboard_failure_keeps_rows (B : Backend) (st : State) :
  let sent := (loadDashboard B st).1 in
  let st' := (loadDashboard B st).2 in
  loading st' = false
  ∧ match error st' with
    | Some _ =>
        tableRows st' = tableRows st
        ∧ priceChangeByKw st' = priceChangeByKw st
        ∧ series_asked sent = []
    | None => True
    end.
Proof.
  cbv zeta. unfold loadDashboard.
  destruct (listKeywords (keywords_response B)) as [kws|e]; simpl; [|done].
  destruct (length kws =? 0)%nat; simpl; [done|].
  destruct (mapM (getKeywordStats B) (slice0 25 kws) ≫= mapM row_of_stats)
    as [mapped|e]; simpl; [done|].
  split_and!; try done.
  rewrite DashboardProps.series_asked_keywords. apply DashboardProps.series_asked_stats.
Qed.

(** X6. The table is all or nothing: when the stats request of a single
    keyword among the first 25 fails, the dashboard ends in error, keeps
    the rows it showed before and requests no series, whatever the other
    keywords answered. *)
Theorem dashboard_all_or_nothing (B : Backend) (st : State)
    (kws : list jsval) (kw : jsval) (e : exn) :
  listKeywords (keywords_response B) = Ok kws →
  kw ∈ take 25 kws →
  getKeywordStats B kw = Throw e →
  let sent := (loadDashboard B st).1 in
  let st' := (loadDashboard B st).2 in
  is_Some (error st')
  ∧ tableRows st' = tableRows st
  ∧ priceChangeByKw st' = priceChangeByKw st
  ∧ series_asked sent = []
  ∧ stats_asked sent = take 25 kws.
Proof.
  intros Hkws Hin Hkw. cbv zeta. unfold loadDashboard. rewrite Hkws.
  assert ((length kws =? 0)%nat = false) as ->.
  { destruct kws; [|done]. rewrite take_nil in Hin. by apply elem_of_nil in Hin. }
  unfold slice0.
  destruct (mapM_Throw (getKeywordStats B) (take 25 kws) kw e Hin Hkw) as [e' ->].
  simpl. split_and!; try done.
  - rewrite DashboardProps.series_asked_keywords. apply DashboardProps.series_asked_stats.
  - rewrite DashboardProps.stats_asked_keywords. apply DashboardProps.stats_asked_stats.
Qed.


(** X7. When every stats request of the first 25 keywords succeeds and
    gives a row, the table holds exactly these rows, one per keyword asked
    (the smaller of 25 and the number of keywords), the error is cleared
    and loading ends; the percentages of the keywords outside the first
    four rows are the ones held before. *)
Theorem dashboard_rows_on_success (B : Backend) (st : State)
    (kws : list jsval) (rows : list ComparisonRow) :
  listKeywords (keywords_response B) = Ok kws →
  kws ≠ [] →
  mapM (getKeywordStats B) (take 25 kws) ≫= mapM row_of_stats = Ok rows →
  let st' := (loadDashboard B st).2 in
  tableRows st' = rows
  ∧ length rows = (25 `min` length kws)%nat
  ∧ error st' = None
  ∧ loading st' = false
  ∧ (loadDashboard B st).1
    = GET_keywords :: (GET_stats <$> take 25 kws) ++ (GET_series <$> (keyword <$> take 4 rows))
  ∧ ∀ kw : string, kw ∉ (keyword <$> take 4 rows) →
          priceChangeByKw st' !! kw = priceChangeByKw st !! kw.
Proof.
  intros Hkws Hne Hrows. cbv zeta. unfold loadDashboard. rewrite Hkws.
  assert ((length kws =? 0)%nat = false) as -> by (by destruct kws).
  unfold slice0. rewrite Hrows. simpl. split_and!; try done.
  - destruct (mapM (getKeywordStats B) (take 25 kws)) as [stats|] eqn:Hstats; [|done].
    simpl in Hrows. apply mapM_Ok_length in Hrows, Hstats.
    rewrite Hrows, Hstats, length_take. done.
  - intros kw Hkw. rewrite lookup_union_r; [done|].
    by rewrite PriceChangeProps.patch_of_lookup, decide_False.
Qed.

End with_runtime.

#[local] Existing Instance Sample.host.

Lemma apiJson_failure_message_witness :
  ∃ msg,
    apiJson (Ok {| status := 503; body := None |}) = Throw (Error (JStr msg))
    ∧ msg ≠ ""
    ∧ msg = "HTTP 503".
Proof.
  destruct (apiJson_failure_message {| status := 503; body := None |} eq_refl)
    as (msg & Hthrow & Hne & _ & Hstatus).
  exists msg. split_and!; [done|done|by apply Hstatus].
Defined.

Lemma dashboard_cleared_without_keywords_witness :
  loadDashboard Fixtures.server_silent Fixtures.showing
  = ([GET_keywords],
     {| loading := false; error := None; tableRows := []; priceChangeByKw := ∅ |}).
Proof.
  apply (dashboard_cleared_without_keywords Fixtures.server_silent Fixtures.showing
           {| status := 200; body := Some "" |}); [reflexivity|reflexivity|by left].
Defined.

Lemma dashboard_all_or_nothing_witness :
  let st' := (loadDashboard Fixtures.server_k7_missing Fixtures.showing).2 in
  is_Some (error st')
  ∧ tableRows st' = tableRows Fixtures.showing
  ∧ priceChangeByKw st' = priceChangeByKw Fixtures.showing.
Proof.
  destruct (dashboard_all_or_nothing Fixtures.server_k7_missing Fixtures.showing
              Sample.all_keywords (JStr "k7") (Error (JStr "Not Found")))
    as (Herr & Hrows & Hprices & _).
  - reflexivity.
  - apply list_elem_of_lookup. by exists 7%nat.
  - reflexivity.
  - by split_and!.
Defined.

Lemma dashboard_rows_on_success_witness :
  let st' := (loadDashboard Sample.server Fixtures.showing).2 in
  length (tableRows st') = 25%nat
  ∧ error st' = None
  ∧ priceChangeByKw st' !! "ps5" = Some 4.5%float.
Proof.
  destruct (mapM (getKeywordStats Sample.server) (take 25 Sample.all_keywords)
              ≫= mapM row_of_stats) as [rows|] eqn:Hrows; [|by vm_compute in Hrows].
  destruct (dashboard_rows_on_success Sample.server Fixtures.showing
              Sample.all_keywords rows)
    as (Htable & Hlen & Herr & _ & _ & Hkeep); [reflexivity|done|exact Hrows|].
  split_and!.
  - by rewrite Htable, Hlen.
  - exact Herr.
  - rewrite Hkeep; [reflexivity|].
    assert (rows = default [] (match mapM (getKeywordStats Sample.server)
                                       (take 25 Sample.all_keywords)
                                     ≫= mapM row_of_stats with
                               | Ok r => Some r
                               | Throw _ => None
                               end)) as -> by (by rewrite Hrows).
    vm_compute. intros Hin. repeat (apply elem_of_cons in Hin as [Hin|Hin]; [discriminate|]).
    by apply elem_of_nil in Hin.
Defined.

Example dashboard_server_down :
  let st' := (loadDashboard Fixtures.server_down Fixtures.showing).2 in
  error st' = Some (Error (JStr "Service Unavailable"))
  ∧ tableRows st' = tableRows Fixtures.showing.
Proof. split; reflexivity. Qed.

End DashboardStateProps.

(** ** The cards and the selected product *)

Module CardsProps.
Import App Cards DashboardSpec.

#[local] Arguments take : simpl never.
#[local] Arguments slice0 : simpl never.
#[local] Arguments series_asked : simpl never.

Section with_runtime.
Context `{Runtime} `{SearchIcon.Unicode}.







End with_runtime.

#[local] Existing Instance Sample.host.
#[local] Existing Instance Fixtures.ascii_text.



Example clicked_product_outside_cards :
  Cards.medianPrice (handleTableProductClick Fixtures.three_rows "ps5" (JNum 350)) = JNum 350
  ∧ priceChange (handleTableProductClick Fixtures.three_rows "B" (JNum 1)) = 2.5%float.
Proof. split; reflexivity. Qed.

End CardsProps.

(** ** The icon of a search *)

Module SearchIconProps.
Import SearchIcon SearchIconSpec.

Lemma includes_prefix h n : String.prefix n h = true → includes h n = true.
Proof. intros Hp. destruct h; simpl in *; by rewrite Hp. Qed.

Lemma includes_app_r h n b : includes h n = true → includes (h +:+ b) n = true.
Proof.
  induction h as [|c h IH]; simpl.
  - rewrite orb_false_r. intros Hn. apply includes_prefix.
    by apply (UrlProps.prefix_app n "" b).
  - intros [Hp|Hr]%orb_true_iff.
    + pose proof (UrlProps.prefix_app n (String c h) b Hp) as Hp'.
      simpl in Hp'. by rewrite Hp'.
    + rewrite IH by done. apply orb_true_r.
Qed.

Lemma includes_app_l a h n : includes h n = true → includes (a +:+ h) n = true.
Proof.
  intros Hh. induction a as [|c a IH]; simpl; [done|].
  rewrite IH. apply orb_true_r.
Qed.

Lemma hasAny_spec h needles :
  hasAny h needles = true ↔ ∃ n, n ∈ needles ∧ includes h n = true.
Proof.
  induction needles as [|n needles IH]; simpl.
  - split; [done|]. intros (n & Hn & _). by apply elem_of_nil in Hn.
  - destruct (includes h n) eqn:Hn.
    + split; [|done]. intros _. exists n. split; [by left|done].
    + rewrite IH. split.
      * intros (m & Hm & Hh). exists m. split; [by right|done].
      * intros (m & [->|Hm]%elem_of_cons & Hh); [congruence|]. by exists m.
Qed.

Lemma hasAny_app h l1 l2 : hasAny h (l1 ++ l2) = hasAny h l1 || hasAny h l2.
Proof.
  induction l1 as [|n l1 IH]; simpl; [done|]. by destruct (includes h n).
Qed.

(** A text that holds a word still holds it with text put around it. *)
Lemma hasAny_around a h b needles :
  hasAny h needles = true → hasAny (a +:+ h +:+ b) needles = true.
Proof.
  rewrite !hasAny_spec. intros (n & Hn & Hh). exists n. split; [done|].
  by apply includes_app_l, includes_app_r.
Qed.

(** X12. The generic package icon is the icon of exactly the texts that
    hold none of the words of any category; every other text gets the
    icon of a category. *)
Theorem package_icon_iff `{Unicode} (query : string) :
  (icon_of (norm query) = Package
   ↔ ∀ n, n ∈ all_needles → includes (norm query) n = false)
  ∧ iconForSearchQuery query = icon_of (norm query).
Proof.
  split; [|done]. generalize (norm query) as q. intros q.
  transitivity (hasAny q all_needles = false).
  - unfold all_needles, icon_of. rewrite !hasAny_app.
    destruct (hasAny q watches); [done|]. destruct (hasAny q cars); [done|].
    destruct (hasAny q games); [done|]. destruct (hasAny q phones); [done|].
    destruct (hasAny q computers); [done|]. destruct (hasAny q bikes); [done|].
    destruct (hasAny q furniture); [done|]. destruct (hasAny q fashion); [done|].
    destruct (hasAny q tools); [done|]. destruct (hasAny q books); [done|].
    destruct (hasAny q jobs); done.
  - split.
    + intros Hnone n Hn. destruct (includes q n) eqn:Hq; [|done].
      assert (hasAny q all_needles = true) as Hany by (apply hasAny_spec; by exists n).
      congruence.
    + intros Hnone. destruct (hasAny q all_needles) eqn:Hany; [|done].
      apply hasAny_spec in Hany as (n & Hn & Hq). by rewrite Hnone in Hq.
Qed.

(** X13. Text put before or after a normalised query never moves it to a
    later category of the chain: the icon of the longer text is the same
    or one tested earlier. In particular a watch stays a watch, and a
    text with the package icon can only gain a category. *)
Theorem icon_rank_around (a q b : string) :
  (rank (icon_of (a +:+ q +:+ b)) ≤ rank (icon_of q))%nat.
Proof.
  pose proof (hasAny_around a q b) as Hmono. unfold icon_of.
  repeat match goal with
    | |- context [hasAny q ?needles] =>
        destruct (hasAny q needles) eqn:?;
        [ rewrite (Hmono needles) by done; simpl; lia
        | destruct (hasAny (a +:+ q +:+ b) needles);
          [ repeat (match goal with
                    | |- context [hasAny q ?more] => destruct (hasAny q more)
                    end);
            simpl; lia
          | ] ]
    end.
  done.
Qed.

#[local] Existing Instance Fixtures.ascii_text.

Example icon_samples :
  iconForSearchQuery <$> ["  Rolex Submariner "; "iPhone 14 Pro"; "PS5"; "mesa gaming"; "cuadro"]
  = [Watch; Smartphone; Gamepad2; Laptop; Package].
Proof. vm_compute. reflexivity. Qed.

End SearchIconProps.

(** ** The detail panel *)

Module PanelProps.
Import Panel.

Section with_runtime.
Context `{Runtime}.

Lemma seriesChartData_length (series : option KeywordSeriesResponse) :
  length (Detail.seriesChartData series) = length (default [] (series ≫= ser_series)).
Proof.
  unfold Detail.seriesChartData. by rewrite length_fmap, SortFacts.Array_sort_length.
Qed.

(** X15. The evolution chart of the panel is drawn exactly when the
    series holds at least two points, in whatever order and with whatever
    dates; and whenever it is not drawn for a loaded series, the card of
    the same keyword has no signal either. *)
Theorem chart_needs_two_runs (st : State) :
  chart_drawn st = bool_decide (2 ≤ length (default [] (series st ≫= ser_series)))%nat
  ∧ ∀ ser, series st = Some ser → chart_drawn st = false →
           App.price_signal ser = Ok App.NoSignal.
Proof.
  unfold chart_drawn. rewrite seriesChartData_length. split.
  - destruct (Nat.ltb_spec 1 (length (default [] (series st ≫= ser_series)))).
    + symmetry. apply bool_decide_eq_true. lia.
    + symmetry. apply bool_decide_eq_false. lia.
  - intros ser -> Hno. simpl in Hno. unfold App.price_signal.
    rewrite SortFacts.Array_sort_length.
    apply Nat.ltb_ge in Hno.
    assert ((length (default [] (ser_series ser)) <? 2)%nat = true) as ->; [|done].
    apply Nat.ltb_lt. lia.
Qed.

End with_runtime.

End PanelProps.

(** ** The selection of the comparison *)

Module SelectionProps.
Import Selection SelectionSpec.

Lemma before_irrefl k : before k k = false.
Proof. unfold before. destruct (array_index k); [apply N.ltb_irrefl|done]. Qed.

Lemma before_between j k k' :
  before k k' = true → before j k' = false → before j k = false.
Proof.
  unfold before.
  destruct (array_index j), (array_index k), (array_index k'); try done.
  rewrite N.ltb_lt, !N.ltb_ge. lia.
Qed.

Lemma own_None (o : object) k : own o k = None ↔ k ∉ o.*1.
Proof.
  induction o as [|[k' v] o IH]; csimpl.
  - split; [|done]. intros _ Hin. inv Hin.
  - rewrite not_elem_of_cons. destruct (String.eqb_spec k k'); naive_solver.
Qed.

Lemma own_assign (o : object) k v k' :
  own (assign k v o) k' = if decide (k' = k) then (λ _, v) <$> own o k else own o k'.
Proof.
  induction o as [|[k0 v0] o IH]; csimpl; [by case_decide|].
  destruct (String.eqb_spec k k0) as [->|Hne]; csimpl.
  - destruct (String.eqb_spec k' k0) as [->|Hne']; [by rewrite decide_True|].
    by rewrite decide_False.
  - destruct (String.eqb_spec k' k0) as [->|Hne']; [by rewrite decide_False|done].
Qed.

Lemma own_create (o : object) k v k' :
  own o k = None →
  own (create k v o) k' = if decide (k' = k) then Some v else own o k'.
Proof.
  induction o as [|[k0 v0] o IH]; csimpl.
  - intros _. destruct (String.eqb_spec k' k); by case_decide.
  - destruct (String.eqb_spec k k0) as [->|Hne]; [done|]. intros Hk.
    destruct (before k k0); csimpl.
    + destruct (String.eqb_spec k' k) as [->|Hne'].
      * by rewrite decide_True.
      * by rewrite decide_False.
    + destruct (String.eqb_spec k' k0) as [->|Hne']; [by rewrite decide_False|].
      by apply IH.
Qed.

Lemma own_define (o : object) k v k' :
  own (define k v o) k' = if decide (k' = k) then Some v else own o k'.
Proof.
  unfold define. destruct (own o k) as [b|] eqn:Hk.
  - rewrite own_assign, Hk. by case_decide.
  - by apply own_create.
Qed.

Lemma keys_assign (o : object) k v : (assign k v o).*1 = o.*1.
Proof.
  induction o as [|[k0 v0] o IH]; csimpl; [done|].
  destruct (String.eqb k k0); csimpl; [done|]. by f_equal.
Qed.

Lemma assign_same (o : object) k v : own o k = Some v → assign k v o = o.
Proof.
  induction o as [|[k0 v0] o IH]; csimpl; [done|].
  destruct (String.eqb_spec k k0) as [->|Hne]; [by intros [= ->]|].
  intros Hk. by rewrite IH.
Qed.

Lemma assign_assign (o : object) k v w : assign k v (assign k w o) = assign k v o.
Proof.
  induction o as [|[k0 v0] o IH]; csimpl; [done|].
  destruct (String.eqb_spec k k0) as [->|Hne]; csimpl.
  - by rewrite String.eqb_refl.
  - destruct (String.eqb_spec k k0); [done|]. by rewrite IH.
Qed.

Lemma create_perm (o : object) k v : create k v o ≡ₚ (k, v) :: o.
Proof.
  induction o as [|[k0 v0] o IH]; csimpl; [done|].
  destruct (before k k0); [done|]. rewrite IH. apply perm_swap.
Qed.

Lemma create_last (o : object) k v :
  Forall (λ a, before k a = false) o.*1 → create k v o = o ++ [(k, v)].
Proof.
  induction o as [|[k0 v0] o IH]; csimpl; [done|].
  rewrite Forall_cons. intros [-> Hall]. by rewrite IH.
Qed.

Lemma keys_create_others (o : object) k v :
  filter (λ x, x ≠ k) (create k v o).*1 = filter (λ x, x ≠ k) o.*1.
Proof.
  induction o as [|[k0 v0] o IH]; csimpl.
  - by rewrite filter_cons_False by naive_solver.
  - destruct (before k k0); csimpl.
    + by rewrite (filter_cons_False _ k) by naive_solver.
    + rewrite !(filter_cons _ k0). case_decide; by rewrite IH.
Qed.

Lemma create_in_order (o : object) k v :
  StronglySorted in_key_order o.*1 → StronglySorted in_key_order (create k v o).*1.
Proof.
  induction o as [|[k0 v0] o IH]; csimpl.
  - intros _. repeat constructor.
  - intros [Hsorted Hall]%StronglySorted_inv.
    destruct (before k k0) eqn:Hb; csimpl.
    + constructor; [by constructor|]. constructor.
      * unfold in_key_order. by apply (before_between k0 k k0), before_irrefl.
      * eapply Forall_impl; [exact Hall|]. intros x Hx.
        by apply (before_between x k k0).
    + constructor; [by apply IH|].
      rewrite (create_perm o k v). csimpl. by constructor.
Qed.

Lemma define_canonical (o : object) k v : canonical o → canonical (define k v o).
Proof.
  intros [Hnd Hsorted]. unfold define. destruct (own o k) as [b|] eqn:Hk.
  - by split; rewrite keys_assign.
  - split; [|by apply create_in_order].
    rewrite (create_perm o k v). csimpl. constructor; [by apply own_None|done].
Qed.

(** Copying an object property by property gives the same object. *)
Lemma spread_canonical (o : object) : canonical o → spread o = o.
Proof.
  unfold spread. change o with ([] ++ o) at 1 3. generalize ([] : object) as acc.
  induction o as [|[k v] o IH]; intros acc Hcan; csimpl.
  - by rewrite app_nil_r.
  - destruct Hcan as [Hnd Hsorted]. rewrite fmap_app in Hnd, Hsorted. csimpl in *.
    assert (define k v acc = acc ++ [(k, v)]) as ->.
    { unfold define. assert (own acc k = None) as ->.
      { apply own_None. apply NoDup_app in Hnd as (_ & Hdis & _).
        intros Hin. apply (Hdis k Hin). by left. }
      apply create_last. apply Forall_forall. intros a Ha.
      apply (StronglySorted_app_1_elem_of _ _ _ a k Hsorted); [done|by left]. }
    rewrite (IH (acc ++ [(k, v)])); [by rewrite <-app_assoc|].
    split; rewrite <-app_assoc; by rewrite fmap_app.
Qed.

Section realm.
Variable inherited : string → bool.

Lemma toggle_define (o : object) kw :
  canonical o → toggle inherited kw o = define kw (negb (read inherited o kw)) o.
Proof. intros Hcan. unfold toggle. by rewrite spread_canonical. Qed.

Lemma clicked_canonical (clicks : list string) : canonical (clicked inherited clicks).
Proof.
  unfold clicked. induction clicks as [|kw clicks IH] using rev_ind.
  - split; constructor.
  - rewrite foldl_app. csimpl. rewrite toggle_define by done. by apply define_canonical.
Qed.

Lemma own_toggle (o : object) kw k :
  canonical o →
  own (toggle inherited kw o) k
  = if decide (k = kw) then Some (negb (read inherited o kw)) else own o k.
Proof. intros Hcan. by rewrite toggle_define, own_define. Qed.

Lemma keys_toggle_others (o : object) kw :
  canonical o →
  filter (λ x, x ≠ kw) (toggle inherited kw o).*1 = filter (λ x, x ≠ kw) o.*1.
Proof.
  intros Hcan. rewrite toggle_define by done. unfold define.
  destruct (own o kw); [by rewrite keys_assign|apply keys_create_others].
Qed.

End realm.

Lemma elem_of_kws (o : object) k : k ∈ kws o ↔ own o k = Some true.
Proof.
  unfold kws. rewrite list_elem_of_filter. split; [by intros [? _]|].
  intros Hk. split; [done|]. apply dec_stable. intros Hout%own_None. congruence.
Qed.

(** Two objects that agree on every name but [kw] and list the other
    keys in the same order send the other keywords in the same order. *)
Lemma kws_others (o o' : object) kw :
  (∀ k, k ≠ kw → own o' k = own o k) →
  filter (λ x, x ≠ kw) o'.*1 = filter (λ x, x ≠ kw) o.*1 →
  filter (λ x, x ≠ kw) (kws o') = filter (λ x, x ≠ kw) (kws o).
Proof.
  intros Hown Hkeys. unfold kws.
  rewrite !list_filter_filter.
  trans (filter (λ x, own o x = Some true) (filter (λ x, x ≠ kw) o'.*1)).
  - rewrite list_filter_filter. apply list_filter_iff.
    intros x. split.
    + intros [Hx Ho]. split; [|done]. by rewrite <-Hown.
    + intros [Ho Hx]. split; [done|]. by rewrite Hown.
  - rewrite Hkeys, list_filter_filter. apply list_filter_iff. naive_solver.
Qed.

Lemma filter_out_absent (l : list string) kw : kw ∉ l → filter (λ x, x ≠ kw) l = l.
Proof.
  induction l as [|x l IH]; [done|]. rewrite not_elem_of_cons. intros [Hne Hl].
  rewrite filter_cons_True by done. by rewrite IH.
Qed.

Section toggling.
Variables (inherited : string → bool) (clicks : list string).

(** X16. The selection reached by any sequence of clicks, and one more
    click on [kw]. For a keyword that is not the name of a property of
    [Object.prototype], or that was clicked before, the click flips its
    check mark and its membership in the keywords sent, and a second click
    gives back the keywords sent before. A keyword that bears such a name
    (as [constructor] does) and was never clicked shows as checked without
    being sent; the first click unchecks it and adds nothing. Either way
    every other keyword keeps its check mark, its membership and its
    place: the keywords are sent without repetition in the order of
    [Object.keys], array indices first, and the click moves none of the
    others. *)
Theorem toggle_flips_one (kw k : string) :
  let o := clicked inherited clicks in
  let o' := toggle inherited kw o in
  (inherited kw = false ∨ is_Some (own o kw) →
     checked inherited o' kw = negb (checked inherited o kw)
     ∧ (kw ∈ kws o' ↔ kw ∉ kws o)
     ∧ kws (toggle inherited kw o') = kws o)
  ∧ (inherited kw = true → own o kw = None →
     checked inherited o kw = true ∧ checked inherited o' kw = false
     ∧ kws o' = kws o)
  ∧ (k ≠ kw →
     checked inherited o' k = checked inherited o k ∧ (k ∈ kws o' ↔ k ∈ kws o))
  ∧ filter (λ x, x ≠ kw) (kws o') = filter (λ x, x ≠ kw) (kws o)
  ∧ NoDup (kws o)
  ∧ StronglySorted in_key_order (kws o).
Proof.
  intros o o'.
  assert (canonical o) as Hcan by apply clicked_canonical.
  assert (canonical o') as Hcan'.
  { unfold o'. rewrite toggle_define by done. by apply define_canonical. }
  assert (own o' kw = Some (negb (read inherited o kw))) as Hkw.
  { unfold o'. by rewrite own_toggle, decide_True. }
  assert (∀ x, x ≠ kw → own o' x = own o x) as Hothers.
  { intros x Hx. unfold o'. by rewrite own_toggle, decide_False. }
  assert (filter (λ x, x ≠ kw) (kws o') = filter (λ x, x ≠ kw) (kws o)) as Hframe.
  { apply kws_others; [done|]. by apply keys_toggle_others. }
  split_and!.
  - intros Hplain.
    assert (read inherited o kw = bool_decide (kw ∈ kws o)) as Hread.
    { unfold read. destruct (own o kw) as [[]|] eqn:Ho.
      - symmetry. by apply bool_decide_eq_true, elem_of_kws.
      - symmetry. apply bool_decide_eq_false. rewrite elem_of_kws. congruence.
      - destruct Hplain as [->|[? ?]]; [|done].
        symmetry. apply bool_decide_eq_false. rewrite elem_of_kws. congruence. }
    split_and!.
    + unfold checked, read at 1. by rewrite Hkw.
    + rewrite (elem_of_kws o'), Hkw, Hread.
      case_bool_decide; csimpl; naive_solver.
    + assert (own (toggle inherited kw o') kw = Some (read inherited o kw)) as Hback.
      { rewrite own_toggle, decide_True by done. unfold read at 1.
        by rewrite Hkw, negb_involutive. }
      assert (filter (λ x, x ≠ kw) (kws (toggle inherited kw o'))
              = filter (λ x, x ≠ kw) (kws o)) as Htwice.
      { rewrite <-Hframe. apply kws_others; [|by apply keys_toggle_others].
        intros x Hx. by rewrite own_toggle, decide_False. }
      destruct (decide (kw ∈ kws o)) as [Hin|Hout].
      * (* the property exists and is set back to true in place *)
        apply elem_of_kws in Hin as Ho.
        assert (o' = assign kw false o) as Ho'.
        { unfold o'. rewrite toggle_define by done. unfold define, read. by rewrite Ho. }
        rewrite toggle_define by done. unfold define, read. rewrite Hkw. csimpl.
        rewrite negb_involutive, Hread, bool_decide_eq_true_2 by done.
        rewrite Ho', assign_assign. by rewrite assign_same.
      * rewrite <-(filter_out_absent (kws o) kw Hout), <-Htwice.
        symmetry. apply filter_out_absent. rewrite elem_of_kws, Hback, Hread.
        rewrite bool_decide_eq_false_2 by done. congruence.
  - intros Hin Ho.
    assert (read inherited o kw = true) as Hread by (unfold read; by rewrite Ho).
    split_and!.
    + done.
    + unfold checked, read. by rewrite Hkw, Hread.
    + rewrite <-(filter_out_absent (kws o) kw), <-Hframe.
      * symmetry. apply filter_out_absent. rewrite elem_of_kws, Hkw, Hread. done.
      * rewrite elem_of_kws. congruence.
  - intros Hne. split.
    + unfold checked, read. by rewrite Hothers.
    + by rewrite !elem_of_kws, Hothers.
  - done.
  - unfold kws. apply NoDup_filter, Hcan.
  - unfold kws. destruct Hcan as [_ Hsorted]. revert Hsorted.
    generalize (o.*1). intros l. induction 1 as [|x l Hl IH Hall]; [constructor|].
    rewrite filter_cons. case_decide; [|done].
    constructor; [done|]. apply Forall_forall. intros y [_ Hy]%list_elem_of_filter.
    rewrite Forall_forall in Hall. by apply Hall.
Qed.

End toggling.

(** Clicks on b, 10, a, 9 and b again send 9, 10 and a, in that order. A
    first click on [constructor] sends nothing; the second sends it. *)
Example toggle_samples :
  kws (clicked Fixtures.Object_prototype ["b"; "10"; "a"; "9"; "b"]) = ["9"; "10"; "a"]
  ∧ kws (clicked Fixtures.Object_prototype ["b"; "a"; "b"; "b"]) = ["b"; "a"]
  ∧ checked Fixtures.Object_prototype [] "constructor" = true
  ∧ kws (clicked Fixtures.Object_prototype ["constructor"]) = []
  ∧ kws (clicked Fixtures.Object_prototype ["constructor"; "constructor"])
    = ["constructor"]
  ∧ array_index "007" = None
  ∧ array_index "4294967295" = None.
Proof. split_and!; vm_compute; reflexivity. Qed.

End SelectionProps.

(** ** The colours of the comparison chart *)

Module ChartProps.
Import CompareEvolutionChart.

Lemma COLORS_distinct : NoDup COLORS.
Proof. apply (bool_decide_unpack _). vm_compute. reflexivity. Qed.

(** X17. Every line of the comparison chart has a colour, however many
    keywords are compared, and two lines share a colour exactly when their
    positions differ by a multiple of seven; the lines keep the order of
    the keywords. *)
Theorem stroke_cycles (i j : nat) (keywords : list string) :
  is_Some (stroke i)
  ∧ (stroke i = stroke j ↔ i `mod` 7 = j `mod` 7)%nat
  ∧ (lines keywords).*1 = keywords
  ∧ Forall (λ line, is_Some line.2) (lines keywords).
Proof.
  assert (∀ n, is_Some (stroke n)) as Hsome.
  { intros n. apply lookup_lt_is_Some. apply Nat.mod_upper_bound. by vm_compute. }
  split_and!.
  - apply Hsome.
  - unfold stroke. change (length COLORS) with 7%nat. split; [|by intros ->].
    intros Heq. destruct (Hsome i) as [c Hc]. unfold stroke in Hc.
    change (length COLORS) with 7%nat in Hc.
    eapply (NoDup_lookup COLORS); [apply COLORS_distinct|exact Hc|by rewrite <-Heq].
  - unfold lines. apply list_eq. intros n.
    rewrite list_lookup_fmap, list_lookup_imap. by destruct (keywords !! n).
  - apply Forall_forall. intros line Hline. unfold lines in Hline.
    apply list_elem_of_lookup in Hline as [n Hn]. rewrite list_lookup_imap in Hn.
    destruct (keywords !! n); simpl in Hn; [|done]. injection Hn as <-. apply Hsome.
Qed.

End ChartProps.

(** ** The rows of the daily configuration *)

Module DailyProps.
Import Daily DailySpec.

Lemma filter_from_past {A} (l : list A) (n k : nat) :
  (k < n)%nat → filter_from (λ idx _, negb (idx =? k)%nat) n l = l.
Proof.
  revert n. induction l as [|x rest IH]; intros n Hn; simpl; [done|].
  destruct (Nat.eqb_spec n k) as [->|_]; [lia|]. simpl.
  f_equal. apply IH. lia.
Qed.

Lemma filter_from_delete {A} (l : list A) (n k : nat) :
  (n ≤ k)%nat → filter_from (λ idx _, negb (idx =? k)%nat) n l = delete (k - n)%nat l.
Proof.
  revert n. induction l as [|x rest IH]; intros n Hn; simpl; [done|].
  destruct (Nat.eqb_spec n k) as [->|Hne]; simpl.
  - rewrite Nat.sub_diag. simpl. apply filter_from_past. lia.
  - replace (k - n)%nat with (S (k - S n)) by lia. simpl.
    f_equal. apply IH. lia.
Qed.

Lemma spread_no_patch (r : Row) : spread r no_patch = r.
Proof. by destruct r. Qed.

Lemma spread_twice (r : Row) (patch : Patch) :
  spread (spread r patch) patch = spread r patch.
Proof.
  destruct r, patch as [k mn mx fm ex]. unfold spread. simpl.
  by destruct k, mn, mx, fm, ex.
Qed.

Lemma updateRow_lookup (i j : nat) (patch : Patch) (rows : list Row) :
  updateRow i patch rows !! j
  = if decide (j = i) then (λ r, spread r patch) <$> rows !! j else rows !! j.
Proof.
  unfold updateRow. rewrite list_lookup_imap.
  destruct (rows !! j); simpl; by case_decide.
Qed.

(** X18. [updateRow i patch] keeps the number of rows, rewrites the row at
    index [i] with the properties of the patch laid over its own and
    leaves every other row as it is, so that an index past the end changes
    nothing; a patch without properties changes nothing, and the same
    patch applied twice is as applied once. *)
Theorem updateRow_edits_one (i j : nat) (patch : Patch) (rows : list Row) :
  length (updateRow i patch rows) = length rows
  ∧ updateRow i patch rows !! j
    = (if decide (j = i) then (λ r, spread r patch) <$> rows !! j else rows !! j)
  ∧ ((length rows ≤ i)%nat → updateRow i patch rows = rows)
  ∧ updateRow i no_patch rows = rows
  ∧ updateRow i patch (updateRow i patch rows) = updateRow i patch rows.
Proof.
  split_and!.
  - unfold updateRow. apply length_imap.
  - apply updateRow_lookup.
  - intros Hi. apply list_eq. intros n. rewrite updateRow_lookup.
    case_decide as Hn; [|done]. subst n. by rewrite lookup_ge_None_2.
  - apply list_eq. intros n. rewrite updateRow_lookup.
    case_decide; [|done]. destruct (rows !! n); simpl; [|done].
    by rewrite spread_no_patch.
  - apply list_eq. intros n. rewrite !updateRow_lookup.
    case_decide; [|done]. destruct (rows !! n); simpl; [|done].
    by rewrite spread_twice.
Qed.

(** X19. [removeRow i] deletes the row at index [i] and nothing else: the
    rows before it keep their index, the rows after it move up by one, an
    index past the end removes nothing, and removing the row [addRow] has
    just appended gives back the rows as they were. *)
Theorem removeRow_deletes (i : nat) (rows : list Row) :
  removeRow i rows = delete i rows
  ∧ (∀ j, removeRow i rows !! j
          = if decide (j < i)%nat then rows !! j else rows !! S j)
  ∧ ((length rows ≤ i)%nat → removeRow i rows = rows)
  ∧ removeRow (length rows) (addRow rows) = rows.
Proof.
  assert (∀ k (l : list Row), removeRow k l = delete k l) as Hdel.
  { intros k l. unfold removeRow. rewrite filter_from_delete by lia.
    by rewrite Nat.sub_0_r. }
  split_and!.
  - apply Hdel.
  - intros j. rewrite Hdel. case_decide.
    + by apply list_lookup_delete_lt.
    + apply list_lookup_delete_ge. lia.
  - intros Hi. rewrite Hdel. apply list_eq. intros j.
    destruct (decide (j < i)%nat).
    + by apply list_lookup_delete_lt.
    + rewrite list_lookup_delete_ge by lia.
      by rewrite !lookup_ge_None_2 by lia.
  - rewrite Hdel. unfold addRow.
    rewrite delete_middle. by rewrite app_nil_r.
Qed.

Section with_runtime.
Context `{Runtime}.

Lemma json_bound_sendable (k : string) (b : option bound) (rest : list (string * jsval)) :
  sendable (assoc k rest) →
  sendable (assoc k (json_field k json_bound b ++ rest)).
Proof.
  intros Hrest. destruct b as [[|x]|]; simpl; [| |done].
  - by rewrite String.eqb_refl.
  - rewrite String.eqb_refl. unfold json_number.
    by destruct (Number_isFinite x) eqn:Hx.
Qed.

(** X20. In the body of [saveDailyConfig] a price bound of a row is
    absent, [null] or a finite number, never NaN or an infinity. Once a
    price cell has been edited the bound is always present: it is [null]
    when the cell was emptied or holds a text that is not a finite number,
    and that number otherwise. *)
Theorem daily_bounds_sent (rows : list Row) (r : Row) (v : string) :
  (∀ doc, doc ∈ save_body rows →
          sendable (assoc "min_price" doc) ∧ sendable (assoc "max_price" doc))
  ∧ assoc "min_price" (row_json (spread r (min_price_changed v)))
    = Some (if bool_decide (v = "") || negb (Number_isFinite (StringToNumber v))
            then JNull else JNum (StringToNumber v))
  ∧ assoc "max_price" (row_json (spread r (max_price_changed v)))
    = Some (if bool_decide (v = "") || negb (Number_isFinite (StringToNumber v))
            then JNull else JNum (StringToNumber v)).
Proof.
  split_and!.
  - intros doc Hdoc. unfold save_body in Hdoc.
    apply list_elem_of_fmap in Hdoc as (row & -> & _).
    unfold row_json. split.
    + change (assoc "min_price" ([("keyword", JStr (keyword row))] ++ ?l))
        with (assoc "min_price" l).
      apply json_bound_sendable.
      destruct (max_price row), (filter_mode row), (exclude_bad_text row); done.
    + destruct (min_price row) as [?|]; simpl;
        (apply json_bound_sendable;
         destruct (filter_mode row), (exclude_bad_text row); done).
  - unfold row_json, min_price_changed, typed_bound. simpl.
    destruct (String.eqb_spec v "") as [->|Hv]; simpl.
    + done.
    + rewrite bool_decide_eq_false_2 by done. simpl. unfold json_number.
      by destruct (Number_isFinite (StringToNumber v)).
  - unfold row_json, max_price_changed, typed_bound. simpl.
    destruct (min_price r) as [?|]; simpl;
      (destruct (String.eqb_spec v "") as [->|Hv]; simpl; [done|];
       rewrite bool_decide_eq_false_2 by done; simpl; unfold json_number;
       by destruct (Number_isFinite (StringToNumber v))).
Qed.

End with_runtime.

End DailyProps.

(** ** The merged table, whatever the timestamps *)

Module MergedProps.
Import Compare SortFacts CompareSpec.

Section with_runtime.
Context `{Runtime}.

Lemma date_step ps byTs k p :
  built ps byTs →
  (∀ ts r, Map_get ts byTs = Some r →
     r !! "date" = Some (default (JStr (date_label ts)) (last_median ps "date" ts))) →
  ∀ ts r, Map_get ts (step byTs (k, p)) = Some r →
    r !! "date"
    = Some (default (JStr (date_label ts)) (last_median (ps ++ [(k, p)]) "date" ts)).
Proof.
  intros [Hnd Hkeys _] Hdate ts r. unfold step, add_point. simpl.
  rewrite CompareProps.Map_has_spec, CompareProps.last_median_snoc.
  case_bool_decide as Hin.
  - rewrite CompareProps.Map_get_assign. case_decide as Hts.
    + subst ts. destruct (Map_get (pt_scraped_at p) byTs) as [r0|] eqn:Hr0; [|done].
      intros [= <-]. case_bool_decide as Hk.
      * destruct Hk as [-> _]. by rewrite lookup_insert_eq.
      * rewrite lookup_insert_ne by (intros ->; by destruct Hk). by apply Hdate.
    + intros Hr. rewrite bool_decide_eq_false_2 by (by intros [_ ?]). by apply Hdate.
  - rewrite CompareProps.Map_set_fresh by done.
    rewrite CompareProps.Map_get_assign. case_decide as Hts.
    + subst ts. rewrite CompareProps.Map_get_snoc.
      rewrite (proj2 (CompareProps.Map_get_None _ _) Hin), decide_True by done. simpl.
      intros [= <-]. case_bool_decide as Hk.
      * destruct Hk as [-> _]. by rewrite lookup_insert_eq.
      * rewrite lookup_insert_ne by (intros ->; by destruct Hk).
        rewrite lookup_singleton_eq.
        assert (last_median ps "date" (pt_scraped_at p) = None) as ->; [|done].
        apply CompareProps.last_median_None. intros p' Hp' Heq. apply Hin, Hkeys.
        apply list_elem_of_fmap. by exists ("date", p').
    + rewrite CompareProps.Map_get_snoc, decide_False by done.
      destruct (Map_get ts byTs) as [r0|] eqn:Hr0; [|done].
      intros [= <-]. rewrite bool_decide_eq_false_2 by (by intros [_ ?]).
      by apply Hdate.
Qed.

Lemma date_foldl ps ts r :
  Map_get ts (foldl step [] ps) = Some r →
  r !! "date" = Some (default (JStr (date_label ts)) (last_median ps "date" ts)).
Proof.
  revert ts r. induction ps as [|[k p] ps IH] using rev_ind; intros ts r.
  - done.
  - rewrite foldl_app. simpl. apply date_step; [apply CompareProps.built_foldl|apply IH].
Qed.

Lemma merged_entries_perm seriesList : merged_entries seriesList ≡ₚ collect seriesList.
Proof. apply Array_sort_perm. Qed.

(** X21. Whatever the timestamps are, dates or not, and whatever the sort
    makes of them, the merged table has exactly one row for each distinct
    [scraped_at] string of the series: no row is lost or doubled by a
    timestamp that is not a date, and the table is empty only when no
    series has a point. *)
Theorem merged_row_count (seriesList : list KeywordSeriesResponse) :
  length (merged seriesList) = length (remove_dups (timestamps seriesList))
  ∧ (merged_entries seriesList).*1 ≡ₚ remove_dups (timestamps seriesList)
  ∧ (merged seriesList = [] ↔ timestamps seriesList = []).
Proof.
  destruct (CompareProps.collect_built seriesList) as [Hnd Hkeys _].
  assert ((merged_entries seriesList).*1 ≡ₚ remove_dups (timestamps seriesList)) as Hperm.
  { rewrite (merged_entries_perm seriesList).
    apply NoDup_Permutation; [done|apply NoDup_remove_dups|].
    intros ts. rewrite elem_of_remove_dups. apply Hkeys. }
  assert (length (merged seriesList) = length (remove_dups (timestamps seriesList))) as Hlen.
  { unfold merged. rewrite length_fmap.
    rewrite <-(length_fmap fst (merged_entries seriesList)). by rewrite Hperm. }
  split_and!; [done..|].
  split.
  - intros Hnil. rewrite Hnil in Hlen. simpl in Hlen.
    destruct (timestamps seriesList) as [|ts rest] eqn:Hts; [done|].
    assert (ts ∈ remove_dups (ts :: rest)) as Hin by (apply elem_of_remove_dups; by left).
    destruct (remove_dups (ts :: rest)); [inv Hin|done].
  - intros Hnil. rewrite Hnil in Hlen. simpl in Hlen.
    by destruct (merged seriesList).
Qed.

(** X22. Every row of the merged table has a [date] property. It is the
    dd/mm/yyyy label of the row's timestamp as long as no compared keyword
    is itself named [date]; the median of a keyword of that name is
    written over the label of each row it has a point in. *)
Theorem date_column (seriesList : list KeywordSeriesResponse) (ts : string) (r : row) :
  (ts, r) ∈ merged_entries seriesList →
  r !! "date"
  = Some (default (JStr (date_label ts)) (last_median (visited seriesList) "date" ts))
  ∧ ((∀ s, s ∈ seriesList → ser_keyword s ≠ "date") →
     r !! "date" = Some (JStr (date_label ts))).
Proof.
  intros Hin. rewrite (merged_entries_perm seriesList) in Hin.
  destruct (CompareProps.collect_built seriesList) as [Hnd _ _].
  apply CompareProps.Map_get_elem_of in Hin; [|done].
  rewrite CompareProps.collect_visits in Hin. apply date_foldl in Hin.
  split; [done|]. intros Hnone. rewrite Hin.
  assert (last_median (visited seriesList) "date" ts = None) as ->; [|done].
  apply CompareProps.last_median_None.
  intros p (s & Hs & Hk & _)%CompareProps.elem_of_visited. by destruct (Hnone s).
Qed.

End with_runtime.

#[local] Existing Instance Sample.host.

Lemma date_column_witness :
  let r : row := {[ "A" := JNum 100; "B" := JNum 50; "date" := JStr "01/01/2024" ]} in
  (Sample.t1, r) ∈ merged_entries [Sample.series_A; Sample.series_B]
  ∧ r !! "date" = Some (JStr (date_label Sample.t1)).
Proof.
  intros r.
  assert ((Sample.t1, r) ∈ merged_entries [Sample.series_A; Sample.series_B]) as Hin.
  { apply list_elem_of_lookup. exists 0%nat. vm_compute. reflexivity. }
  split; [exact Hin|].
  destruct (date_column [Sample.series_A; Sample.series_B] Sample.t1 r Hin) as [_ Hlabel].
  apply Hlabel. intros s Hs. repeat (apply elem_of_cons in Hs as [->|Hs]; [done|]). inv Hs.
Defined.

(** A keyword named [date] takes the place of the label in the row of
    [t1]; a timestamp that is not a date keeps its single row, labelled
    NaN/NaN/NaN. *)
Example merged_odd_inputs :
  map_to_list <$> merged [Sample.series_B; Fixtures.series_named_date]
  = [[("B", JNum 50); ("date", JNum 75)]]
  ∧ length (merged [Fixtures.series_undated]) = 2%nat
  ∧ (merged [Fixtures.series_undated] ≫= λ r, option_list (r !! "date"))
    ≡ₚ [JStr "NaN/NaN/NaN"; JStr "01/01/2024"].
Proof.
  split_and!.
  - vm_compute. reflexivity.
  - vm_compute. reflexivity.
  - vm_compute. first [reflexivity | apply Permutation_swap].
Qed.

End MergedProps.

(** ** The keyword of a search *)

Module KeywordProps.
Import SearchBar SearchBarSpec.

Section with_runtime.
Context `{Runtime}.

(** X24. A search is sent unless the term is empty or holds white space
    only, the white space of the language whatever its width in bytes.
    The keyword handed on is the term with the white space cut from its
    two ends and nothing else: the term is that keyword between two runs
    of white space; the keyword is not empty, has no white space left to
    trim at either end, and trimming it again gives the same keyword; the
    filter mode and the bad-text switch of the form are always part of
    the options. *)
Theorem search_keyword_trimmed (f : Form) :
  (handleSearch f = None ↔ blank (searchTerm f) = true)
  ∧ ∀ kw opts, handleSearch f = Some (kw, opts) →
      kw = trim (searchTerm f)
      ∧ kw ≠ ""
      ∧ (∃ l r, searchTerm f = l +:+ kw +:+ r ∧ blank l = true ∧ blank r = true)
      ∧ trimStart kw = kw
      ∧ trimEnd kw = kw
      ∧ trim kw = kw
      ∧ filter_mode opts = Some (filterMode f)
      ∧ exclude_bad_text opts = Some (excludeBadText f).
Proof.
  unfold handleSearch, blank. split.
  - rewrite <-StringFacts.trim_empty.
    destruct (String.eqb_spec (trim (searchTerm f)) ""); naive_solver.
  - intros kw opts.
    destruct (String.eqb_spec (trim (searchTerm f)) "") as [|Hne]; [done|].
    intros [= <- <-].
    destruct (StringFacts.trim_clean (searchTerm f)) as (Hl & Hr & Hboth).
    split_and!; try done. apply StringFacts.trim_split.
Qed.

End with_runtime.

#[local] Existing Instance Sample.host.

(** A term between spaces; a term that ends in the byte A0 without ending
    in white space; a term of ideographic spaces only. *)
Example search_keyword_samples :
  fst <$> handleSearch (Fixtures.searching "  iphone 14 pro  ") = Some "iphone 14 pro"
  ∧ fst <$> handleSearch (Fixtures.searching "sofà") = Some "sofà"
  ∧ fst <$> handleSearch (Fixtures.searching " sofà　") = Some "sofà"
  ∧ handleSearch (Fixtures.searching "　　") = None
  ∧ handleSearch (Fixtures.searching "   ") = None.
Proof. split_and!; vm_compute; reflexivity. Qed.

End KeywordProps.
